(** * PSHIB tap-to-earn bot: the account ledger of [bot.py]

    A shallow embedding of the ledger operations of [bot.py] (the [users]
    table, [skip], [handle_wallet_address], [view_dashboard], [handle_tap])
    and the properties of the ledger that follow from the code.

    Modelling conventions.
    - The [users] table is a finite map from [user_id] to a record holding
      the other ten columns.  SQL [INTEGER]/[BIGINT] columns are integers
      ([Z]); the 32-bit range of an [INTEGER] column is the predicate
      [int4].  [user_id] is a [SERIAL] column, an [INTEGER] with a
      sequence as default: an [INSERT] of a key outside [int4] is refused
      with "integer out of range", while a comparison
      [WHERE user_id = ..] with such a value is evaluated and matches no
      row.  [token_balance] is assumed to stay inside the [BIGINT] range.
    - Timestamps ([datetime], SQL [TIMESTAMP]) are counts of microseconds.
    - The psycopg2 connection is the record [conn]: the rows as the open
      connection sees them and the list of snapshots made durable by
      [conn.commit()], newest first.
    - The text sent back with [reply_text] is the inductive [reply]; each
      constructor stands for one message of the source, and [Raised] for
      a handler that ends in an exception and sends nothing.
    - [main] registers every handler without [run_async] and starts no
      thread of its own: the dispatcher takes one update at a time from
      its queue and runs the handler to its end before it takes the
      next.  A run of the bot is a sequence of handler calls
      ([handle_all]); [db_lock] is never contended. *)

From Stdlib Require Import ZArith QArith Qround Qpower Lia Floats.SpecFloat.
From stdpp Require Import gmap strings.

Local Open Scope Z_scope.

(** ** Token distribution constants (bot.py, lines 38-46) *)

Definition MAX_TAPS_PER_DAY : Z := 10.
Definition TAP_REWARD : Z := 1000.
Definition INITIAL_MINING_POWER : Z := 100.
Definition TOTAL_MINING_TOKENS : Z := 5000000000000.
Definition BONUS_TOKENS : Z := 500000.
Definition TELEGRAM_TWITTER_BONUS : Z := 200000.
Definition MAX_REFERRAL_USES : Z := 9.

(** [timedelta(days=1)] in microseconds. *)
Definition ONE_DAY : Z := 86400 * 1000000.

(** Range of an SQL [INTEGER] column. *)
Definition int4 (z : Z) : Prop := - 2 ^ 31 <= z < 2 ^ 31.

(** ** The [users] table (bot.py, lines 52-64) *)

Record account := mkAccount {
  wallet_address : option string;   (* TEXT UNIQUE *)
  taps : Z;                         (* INTEGER DEFAULT 0 *)
  mining_power : Z;                 (* INTEGER DEFAULT 100 *)
  referral_code : option string;    (* TEXT UNIQUE *)
  referred_by : option string;      (* TEXT *)
  referral_count : Z;               (* INTEGER DEFAULT 0 *)
  tap_timestamp : Z;                (* TIMESTAMP DEFAULT CURRENT_TIMESTAMP *)
  joined_telegram : bool;           (* BOOLEAN DEFAULT FALSE *)
  followed_twitter : bool;          (* BOOLEAN DEFAULT FALSE *)
  token_balance : Z                 (* BIGINT DEFAULT 0 *)
}.

(** Rows keyed by [user_id], the primary key. *)
Abbreviation store := (gmap Z account).

(** The row created by
    [INSERT INTO users (user_id, token_balance) VALUES (..)]: every other
    column takes its declared default; [db_now] is the server's
    [CURRENT_TIMESTAMP]. *)
Definition default_row (db_now balance : Z) : account :=
  {| wallet_address := None;
     taps := 0;
     mining_power := 100;
     referral_code := None;
     referred_by := None;
     referral_count := 0;
     tap_timestamp := db_now;
     joined_telegram := false;
     followed_twitter := false;
     token_balance := balance |}.

(** [SET wallet_address = w] on one row. *)
Definition set_wallet (w : string) (a : account) : account :=
  {| wallet_address := Some w;
     taps := taps a;
     mining_power := mining_power a;
     referral_code := referral_code a;
     referred_by := referred_by a;
     referral_count := referral_count a;
     tap_timestamp := tap_timestamp a;
     joined_telegram := joined_telegram a;
     followed_twitter := followed_twitter a;
     token_balance := token_balance a |}.

(** [SET taps = t, tap_timestamp = ts, token_balance = token_balance + r]
    on one row. *)
Definition set_tap (t ts r : Z) (a : account) : account :=
  {| wallet_address := wallet_address a;
     taps := t;
     mining_power := mining_power a;
     referral_code := referral_code a;
     referred_by := referred_by a;
     referral_count := referral_count a;
     tap_timestamp := ts;
     joined_telegram := joined_telegram a;
     followed_twitter := followed_twitter a;
     token_balance := token_balance a + r |}.

(** [SET token_balance = b] on one row. *)
Definition set_balance (b : Z) (a : account) : account :=
  {| wallet_address := wallet_address a;
     taps := taps a;
     mining_power := mining_power a;
     referral_code := referral_code a;
     referred_by := referred_by a;
     referral_count := referral_count a;
     tap_timestamp := tap_timestamp a;
     joined_telegram := joined_telegram a;
     followed_twitter := followed_twitter a;
     token_balance := b |}.

(** ** Numbers that cross the Python/SQL boundary

    [REFERRAL_BONUS_PERCENTAGE = 0.10] is a Python [float], an IEEE-754
    binary64 number; [new_tokens * REFERRAL_BONUS_PERCENTAGE] converts the
    integer to binary64 and multiplies with rounding to nearest, ties to
    even.  psycopg2 sends the product as a decimal literal, which the
    server reads as [numeric]; [token_balance + literal] is a [numeric]
    and its assignment to the [BIGINT] column rounds to the nearest
    integer, ties away from zero. *)
Module Numeric.

Definition prec : Z := 53.
Definition emax : Z := 1024.

(** Python's [float(n)] for an integer [n]. *)
Definition float_of_int (n : Z) : spec_float :=
  binary_normalize prec emax n 0 false.

Definition float_mul (x y : spec_float) : spec_float :=
  SFmul prec emax x y.

(** The real number a binary64 value denotes.  Infinities and NaN have
    none; they do not arise from an [INTEGER] mining power (lemma
    [NumericFacts.referrer_bonus_finite]) and are sent to 0 here. *)
Definition float_value (x : spec_float) : Q :=
  match x with
  | S754_finite s m e =>
      let v := inject_Z (Z.pos m) * Qpower 2 e in
      if s then - v else v
  | _ => 0
  end%Q.

(** The cast [numeric -> bigint]: nearest integer, ties away from
    zero. *)
Definition numeric_to_int8 (x : Q) : Z :=
  if Qle_bool 0 x then Qfloor (x + (1 # 2))%Q
  else - Qfloor (- x + (1 # 2))%Q.

End Numeric.

(** The binary64 number nearest to one tenth:
    [0x3FB999999999999A] = 7205759403792794 * 2^-56. *)
Definition REFERRAL_BONUS_PERCENTAGE : spec_float :=
  S754_finite false 7205759403792794 (-56).

(** ** The database connection *)

Record conn := mkConn {
  rows : store;            (* the table as the connection sees it *)
  commits : list store     (* committed snapshots, newest first *)
}.

(** [psycopg2.connect]: a connection onto a table in state [s]. *)
Definition connect (s : store) : conn :=
  {| rows := s; commits := [s] |}.

(** [conn.commit()] *)
Definition commit (c : conn) : conn :=
  {| rows := rows c; commits := rows c :: commits c |}.

(** [conn.rollback()]: back to the last committed snapshot. *)
Definition rollback (c : conn) : conn :=
  {| rows := match commits c with s :: _ => s | [] => rows c end;
     commits := commits c |}.

(** A [cursor.execute] of a statement that rewrites the table. *)
Definition execute (f : store -> store) (c : conn) : conn :=
  {| rows := f (rows c); commits := commits c |}.

(** No write is waiting for a commit. *)
Definition clean (c : conn) : Prop := head (commits c) = Some (rows c).

(** ** Replies *)

Inductive reject_reason :=
  | DailyLimitReached   (* "You have reached the maximum taps for today. .." *)
  | NotRegistered.      (* "You are not registered yet. .." *)

Record dashboard := mkDashboard {
  d_wallet_address : option string;
  d_mining_power : Z;
  d_token_balance : Z;
  d_referral_count : Z;
  d_joined_telegram : bool;
  d_followed_twitter : bool
}.

(** Exceptions of psycopg2 that no handler catches. *)
Inductive db_error :=
  | NumericValueOutOfRange.   (* "integer out of range" *)

Inductive reply :=
  | Skipped                          (* "You have skipped wallet connection. .." *)
  | InvalidAddress                   (* "Invalid wallet address. Please try again." *)
  | WalletBound                      (* "Wallet connected successfully!" *)
  | DuplicateWallet                  (* "There was an error with connecting your wallet. .." *)
  | DashboardSnapshot (d : dashboard)
  | DashboardNotRegistered           (* "You are not registered yet. .." *)
  | Tapped (reward : Z)              (* "Tapped! You received {new_tokens} tokens." *)
  | TapRejected (r : reject_reason)
  | Raised (e : db_error).           (* no message: the handler raised [e] *)

(** Did the handler end in an exception?  The statement that failed leaves
    the transaction of the global connection aborted: every later
    [cursor.execute] is refused with [InFailedSqlTransaction], which is
    not the [IntegrityError] that [handle_wallet_address] rolls back on.
    No handler reads or writes the table from then on. *)
Definition raised (r : reply) : bool :=
  match r with
  | Raised _ => true
  | _ => false
  end.

(** ** SQL statements of the handlers *)

(** Is [z] in the range of an [INTEGER] column? *)
Definition int4b (z : Z) : bool := (- 2 ^ 31 <=? z) && (z <? 2 ^ 31).

(** [INSERT INTO users (user_id, token_balance) VALUES (uid, b)
     ON CONFLICT (user_id) DO NOTHING].  [user_id] is [SERIAL], a 32-bit
    [INTEGER]: a [uid] out of its range is refused before any conflict is
    looked for, which psycopg2 raises as [NumericValueOutOfRange]. *)
Definition sql_insert_user (db_now uid b : Z) (s : store)
    : db_error + store :=
  if int4b uid then
    inr match s !! uid with
        | Some _ => s
        | None => <[uid := default_row db_now b]> s
        end
  else inl NumericValueOutOfRange.

(** Does a row other than [uid] hold wallet address [w]? *)
Definition wallet_taken (uid : Z) (w : string) (s : store) : bool :=
  bool_decide (map_Exists (λ k a, k ≠ uid ∧ wallet_address a = Some w) s).

(** [UPDATE users SET wallet_address = w WHERE user_id = uid].  [None] is
    the [psycopg2.IntegrityError] raised when the new value would break
    [wallet_address TEXT UNIQUE]; with no row for [uid] the statement
    updates nothing and raises nothing. *)
Definition sql_update_wallet (uid : Z) (w : string) (s : store) : option store :=
  match s !! uid with
  | None => Some s
  | Some a =>
      if wallet_taken uid w s then None
      else Some (<[uid := set_wallet w a]> s)
  end.

(** [UPDATE users SET taps = t, tap_timestamp = ts,
     token_balance = token_balance + r WHERE user_id = uid] *)
Definition sql_update_tap (t ts r uid : Z) (s : store) : store :=
  alter (set_tap t ts r) uid s.

(** [UPDATE users SET token_balance = token_balance + bonus
     WHERE referral_code = code], [bonus] a binary64 number. *)
Definition credit_bonus (bonus : spec_float) (a : account) : account :=
  set_balance
    (Numeric.numeric_to_int8
       (inject_Z (token_balance a) + Numeric.float_value bonus)%Q) a.

Definition sql_credit_referrer (bonus : spec_float) (code : string)
    (s : store) : store :=
  (λ a, if decide (referral_code a = Some code)
        then credit_bonus bonus a else a) <$> s.

(** [SELECT taps, tap_timestamp, mining_power FROM users
     WHERE user_id = uid] followed by [cursor.fetchone()]. *)
Definition select_tap_state (uid : Z) (s : store) : option (Z * Z * Z) :=
  (λ a, (taps a, tap_timestamp a, mining_power a)) <$> s !! uid.

(** [SELECT referred_by FROM users WHERE user_id = uid] followed by
    [cursor.fetchone()]. *)
Definition select_referred_by (uid : Z) (s : store) : option (option string) :=
  referred_by <$> s !! uid.

(** [SELECT wallet_address, mining_power, token_balance, referral_count,
     joined_telegram, followed_twitter FROM users WHERE user_id = uid] *)
Definition select_dashboard (uid : Z) (s : store) : option dashboard :=
  (λ a, {| d_wallet_address := wallet_address a;
           d_mining_power := mining_power a;
           d_token_balance := token_balance a;
           d_referral_count := referral_count a;
           d_joined_telegram := joined_telegram a;
           d_followed_twitter := followed_twitter a |}) <$> s !! uid.

(** ** The handlers *)

(** [skip] (lines 89-100).  The handler has no [try]: an exception of
    the [INSERT] leaves it before [conn.commit()] and before the reply. *)
Definition skip (uid db_now : Z) (c : conn) : reply * conn :=
  match sql_insert_user db_now uid BONUS_TOKENS (rows c) with
  | inr s => (Skipped, commit (execute (λ _, s) c))
  | inl e => (Raised e, c)
  end.

(** [view_dashboard] (lines 123-142). *)
Definition view_dashboard (uid : Z) (c : conn) : reply * conn :=
  match select_dashboard uid (rows c) with
  | Some d => (DashboardSnapshot d, c)
  | None => (DashboardNotRegistered, c)
  end.

(** The condition of line 155. *)
Definition eligible (taps ts now : Z) : bool :=
  (taps <? MAX_TAPS_PER_DAY) || (ONE_DAY <? now - ts).

(** Line 156: [taps + 1 if taps < MAX_TAPS_PER_DAY else 1]. *)
Definition new_taps (taps : Z) : Z :=
  if taps <? MAX_TAPS_PER_DAY then taps + 1 else 1.

(** Line 157. *)
Definition new_tokens (mining_power : Z) : Z := TAP_REWARD * mining_power.

(** Line 169: [new_tokens * REFERRAL_BONUS_PERCENTAGE], a [float]. *)
Definition referrer_bonus (tokens : Z) : spec_float :=
  Numeric.float_mul (Numeric.float_of_int tokens) REFERRAL_BONUS_PERCENTAGE.

(** Lines 159-161: the tapping account's own update and its commit. *)
Definition tap_commit (uid now taps mining_power : Z) (c : conn) : conn :=
  commit (execute (sql_update_tap (new_taps taps) now
                     (new_tokens mining_power) uid) c).

(** Lines 165-173: the referrer's credit and its commit.  The test
    [referrer and referrer[0]] holds for a row whose [referred_by] is
    neither NULL nor the empty string. *)
Definition referral_commit (uid tokens : Z) (c : conn) : conn :=
  match select_referred_by uid (rows c) with
  | Some (Some code) =>
      if String.eqb code "" then c
      else commit (execute (sql_credit_referrer (referrer_bonus tokens) code) c)
  | _ => c
  end.

(** Lines 151-182: what [handle_tap] does with the row it fetched. *)
Definition tap_after_fetch (uid now : Z) (user : option (Z * Z * Z))
    (c : conn) : reply * conn :=
  match user with
  | Some (taps, tap_timestamp, mining_power) =>
      if eligible taps tap_timestamp now then
        (Tapped (new_tokens mining_power),
         referral_commit uid (new_tokens mining_power)
           (tap_commit uid now taps mining_power c))
      else (TapRejected DailyLimitReached, c)
  | None => (TapRejected NotRegistered, c)
  end.

(** [handle_tap] (lines 144-182); [now] is the value of
    [datetime.utcnow()]. *)
Definition handle_tap (uid now : Z) (c : conn) : reply * conn :=
  tap_after_fetch uid now (select_tap_state uid (rows c)) c.

Section Adapter.

(** [Web3.isAddress], the syntactic check of the web3 library. *)
Variable isAddress : string -> bool.

(** [handle_wallet_address] (lines 102-121). *)
Definition handle_wallet_address (uid : Z) (text : string) (c : conn)
    : reply * conn :=
  if negb (isAddress text) then (InvalidAddress, c)
  else
    match sql_update_wallet uid text (rows c) with
    | Some s => (WalletBound, commit (execute (λ _, s) c))
    | None => (DuplicateWallet, rollback c)
    end.

(** The updates the dispatcher of [main] routes to a ledger handler. *)
Inductive request :=
  | OnSkip (uid db_now : Z)
  | OnWalletText (uid : Z) (text : string)
  | OnDashboard (uid : Z)
  | OnTap (uid now : Z).

Definition dispatch (r : request) (c : conn) : reply * conn :=
  match r with
  | OnSkip uid db_now => skip uid db_now c
  | OnWalletText uid text => handle_wallet_address uid text c
  | OnDashboard uid => view_dashboard uid c
  | OnTap uid now => handle_tap uid now c
  end.

End Adapter.

(** A run of successive taps of one user, one [datetime.utcnow()] value
    per tap. *)
Fixpoint tap_sequence (uid : Z) (times : list Z) (c : conn)
    : list reply * conn :=
  match times with
  | [] => ([], c)
  | now :: times' =>
      let '(r, c') := handle_tap uid now c in
      let '(rs, c'') := tap_sequence uid times' c' in
      (r :: rs, c'')
  end.

(** A sequence of updates handled one after the other, as the dispatcher
    of [main] does.  After a handler has raised, the handlers of the
    later updates are refused at their first statement: the table and
    the committed history stay as they are. *)
Fixpoint handle_all (isAddress : string -> bool) (rs : list request)
    (c : conn) : conn :=
  match rs with
  | [] => c
  | r :: rs' =>
      let '(answer, c') := dispatch isAddress r c in
      if raised answer then c' else handle_all isAddress rs' c'
  end.

(** ** Vocabulary of the statements *)

(** The referral code a row names, when [referred_by] is set: neither
    NULL nor empty (the test of line 167). *)
Definition referrer_of (a : account) : option string :=
  match referred_by a with
  | Some code => if String.eqb code "" then None else Some code
  | None => None
  end.

(** The tapping row after the update of lines 159-160. *)
Definition after_tap (now : Z) (a : account) : account :=
  set_tap (new_taps (taps a)) now (new_tokens (mining_power a)) a.

(** Row [b] after the referral credit triggered by a tap of [tapper]. *)
Definition apply_credit (tapper b : account) : account :=
  match referrer_of tapper with
  | Some code =>
      if decide (referral_code b = Some code)
      then credit_bonus (referrer_bonus (new_tokens (mining_power tapper))) b
      else b
  | None => b
  end.

(** Row [b] carries the referral code the tapping row [a] was referred
    by. *)
Definition is_referrer_of (a b : account) : Prop :=
  ∃ code, referrer_of a = Some code ∧ referral_code b = Some code.

(** The referral credit a row receives from its own tap: one tenth of the
    reward when the row carries the code it was referred by. *)
Definition own_credit (a : account) : Z :=
  match referrer_of a with
  | Some code =>
      if decide (referral_code a = Some code)
      then new_tokens (mining_power a) / 10 else 0
  | None => 0
  end.

Definition is_tapped (r : reply) : Prop := ∃ reward, r = Tapped reward.

(** The condition of line 155 as a proposition. *)
Definition tap_allowed (a : account) (now : Z) : Prop :=
  taps a < MAX_TAPS_PER_DAY ∨ now - tap_timestamp a > ONE_DAY.

(** The counter a reset on window expiry would leave after an allowed
    tap: 1 when more than 24 hours have passed since [tap_timestamp],
    [taps + 1] otherwise. *)
Definition spec_new_taps (a : account) (now : Z) : Z :=
  if ONE_DAY <? now - tap_timestamp a then 1 else taps a + 1.

(** Every row has at least the initial mining power. *)
Definition mining_power_ok (s : store) : Prop :=
  ∀ k b, s !! k = Some b → INITIAL_MINING_POWER ≤ mining_power b.

(** ** Accounting of a run, seen from one account *)

(** Is update [r] a tap of user [uid] that is answered [Tapped]? *)
Definition is_own_tap (uid : Z) (r : request) (c : conn) : bool :=
  match r with
  | OnTap v now =>
      bool_decide (v = uid)
      && match fst (handle_tap v now c) with Tapped _ => true | _ => false end
  | _ => false
  end.

(** The referral credit that update [r] brings to the account of [uid]:
    one tenth of the reward of a successful tap made by a user whose
    [referred_by] is set to the referral code of [uid]. *)
Definition credit_received (uid : Z) (r : request) (c : conn) : Z :=
  match r with
  | OnTap v now =>
      match fst (handle_tap v now c), rows c !! v, rows c !! uid with
      | Tapped reward, Some av, Some au =>
          match referrer_of av with
          | Some code =>
              if decide (referral_code au = Some code)
              then reward / 10 else 0
          | None => 0
          end
      | _, _, _ => 0
      end
  | _ => 0
  end.

(** Successful taps of [uid], and referral credits received by [uid],
    over a sequence of updates. *)
Fixpoint successful_taps (isAddress : string -> bool) (uid : Z)
    (rs : list request) (c : conn) : nat :=
  match rs with
  | [] => 0
  | r :: rs' =>
      let '(answer, c') := dispatch isAddress r c in
      ((if is_own_tap uid r c then 1 else 0)
       + (if raised answer then 0
          else successful_taps isAddress uid rs' c'))%nat
  end.

Fixpoint credits_received (isAddress : string -> bool) (uid : Z)
    (rs : list request) (c : conn) : Z :=
  match rs with
  | [] => 0
  | r :: rs' =>
      let '(answer, c') := dispatch isAddress r c in
      credit_received uid r c
      + (if raised answer then 0
         else credits_received isAddress uid rs' c')
  end.

(** Every mining power is in the range of its [INTEGER] column. *)
Definition int4_ok (s : store) : Prop :=
  ∀ k b, s !! k = Some b → int4 (mining_power b).

(** ** Sample rows *)
Module Sample.

(** A referrer with code ["ALICE"]. *)
Definition alice : account :=
  {| wallet_address := Some "0xde709f2102306220921060314715629080e2fb77";
     taps := 0; mining_power := 100;
     referral_code := Some "ALICE"; referred_by := None;
     referral_count := 1; tap_timestamp := 0;
     joined_telegram := false; followed_twitter := false;
     token_balance := 500000 |}.

(** A user referred by ["ALICE"]. *)
Definition bob : account :=
  {| wallet_address := None; taps := 3; mining_power := 250;
     referral_code := Some "BOB"; referred_by := Some "ALICE";
     referral_count := 0; tap_timestamp := 1000;
     joined_telegram := false; followed_twitter := false;
     token_balance := 500000 |}.

(** A user at the daily cap. *)
Definition capped : account :=
  {| wallet_address := None; taps := 10; mining_power := 100;
     referral_code := None; referred_by := None;
     referral_count := 0; tap_timestamp := 0;
     joined_telegram := false; followed_twitter := false;
     token_balance := 1500000 |}.

(** A user one tap below the daily cap. *)
Definition almost : account :=
  {| wallet_address := None; taps := 9; mining_power := 100;
     referral_code := None; referred_by := None;
     referral_count := 0; tap_timestamp := 0;
     joined_telegram := false; followed_twitter := false;
     token_balance := 1400000 |}.

Definition table : store :=
  <[1 := alice]> (<[2 := bob]> (<[3 := capped]> (<[4 := almost]> ∅))).

(** A stand-in for [Web3.isAddress]: ["0x"] followed by 40 hexadecimal
    digits (the mixed-case checksum is not looked at). *)
Definition is_hex_digit (a : Ascii.ascii) : bool :=
  let n := Ascii.nat_of_ascii a in
  ((48 <=? n) && (n <=? 57) || (65 <=? n) && (n <=? 70)
   || (97 <=? n) && (n <=? 102))%nat.

Definition hex_address (s : string) : bool :=
  match s with
  | String c0 (String c1 digits) =>
      Ascii.eqb c0 (Ascii.ascii_of_nat 48)
      && Ascii.eqb c1 (Ascii.ascii_of_nat 120)
      && (String.length digits =? 40)%nat
      && forallb is_hex_digit (String.list_ascii_of_string digits)
  | _ => false
  end.

End Sample.

(** ** Invariants of the table *)

(** Every tap counter lies between 0 and the daily cap. *)
Definition taps_ok (s : store) : Prop :=
  ∀ k b, s !! k = Some b → 0 ≤ taps b ≤ MAX_TAPS_PER_DAY.

(** No wallet address is held by two rows ([wallet_address TEXT UNIQUE]). *)
Definition wallet_unique (s : store) : Prop :=
  ∀ k1 k2 b1 b2 w,
    s !! k1 = Some b1 → s !! k2 = Some b2 →
    wallet_address b1 = Some w → wallet_address b2 = Some w → k1 = k2.

(** The users who send [skip] in a sequence of updates. *)
Definition skipped (rs : list request) : gset Z :=
  list_to_set (omap (λ r, match r with OnSkip v _ => Some v | _ => None end) rs).

(** The columns no handler writes. *)
Definition same_profile (b b' : account) : Prop :=
  mining_power b' = mining_power b ∧
  referral_code b' = referral_code b ∧
  referred_by b' = referred_by b ∧
  referral_count b' = referral_count b ∧
  joined_telegram b' = joined_telegram b ∧
  followed_twitter b' = followed_twitter b.

(** A reply that reports a write: the other replies are rejections and
    views. *)
Definition reports_write (r : reply) : bool :=
  match r with
  | Skipped | WalletBound | Tapped _ => true
  | _ => false
  end.

(** The columns of a row that only [skip] and [handle_tap] have written. *)
Definition untouched_profile (b : account) : Prop :=
  mining_power b = 100 ∧ referral_code b = None ∧ referred_by b = None ∧
  referral_count b = 0 ∧ joined_telegram b = false ∧
  followed_twitter b = false ∧
  ∃ n : nat, token_balance b = BONUS_TOKENS + Z.of_nat n * 100000.

(** ** A tap as a change of rows *)

(** The row of [v] when a tap of [v] at time [now] is allowed on table
    [s]. *)
Definition tapper (s : store) (v now : Z) : option account :=
  match s !! v with
  | Some av =>
      if eligible (taps av) (tap_timestamp av) now then Some av else None
  | None => None
  end.

(** The referral credit a successful tap of row [av] pays to row [b]. *)
Definition credit_to (av b : account) : Z :=
  match referrer_of av with
  | Some code =>
      if decide (referral_code b = Some code)
      then new_tokens (mining_power av) / 10 else 0
  | None => 0
  end.

(** Row [b] of user [k] after a tap of [v] at time [now] on table [s]. *)
Definition tap_effect (s : store) (v now k : Z) (b : account) : account :=
  match tapper s v now with
  | Some av =>
      let b1 := if decide (v = k) then after_tap now b else b in
      set_balance (token_balance b1 + credit_to av b) b1
  | None => b
  end.

(** ** The start menu and the routing of callbacks (lines 69-83, 190-195) *)

Inductive button_target :=
  | CallbackData (data : string)    (* [callback_data=..] *)
  | Url (url : string).             (* [url=..] *)

Record button := mkButton {
  button_text : string;
  button_target_of : button_target
}.

(** The [keyboard] of [start]: eight rows of one button. *)
Definition start_keyboard : list (list button) :=
  [ [mkButton "Tap" (CallbackData "tap")];
    [mkButton "Skip Wallet Connection" (CallbackData "skip")];
    [mkButton "Connect Wallet" (CallbackData "connect")];
    [mkButton "Check Balance" (CallbackData "balance")];
    [mkButton "Invite Friends" (CallbackData "invite")];
    [mkButton "Join Telegram Group" (Url "https://www.t.me/shibariumpartnershib")];
    [mkButton "Follow on Twitter" (Url "https://x.com/partnershib24")];
    [mkButton "View Dashboard" (CallbackData "dashboard")] ].

(** The callbacks registered by [main]. *)
Inductive callback_handler :=
  | H_connect | H_skip | H_handle_tap | H_view_dashboard.

(** The [CallbackQueryHandler]s of [main], in the order of
    [add_handler]. *)
Definition callback_handlers : list (string * callback_handler) :=
  [ ("connect", H_connect); ("skip", H_skip); ("tap", H_handle_tap);
    ("dashboard", H_view_dashboard) ].

(** [re.match(pattern, data)] for a pattern without metacharacters: the
    data starts with the pattern. *)
Definition re_match (pattern data : string) : bool :=
  String.prefix pattern data.

(** The dispatcher hands a callback to the first handler whose pattern
    matches its data. *)
Fixpoint first_match (hs : list (string * callback_handler)) (data : string)
    : option callback_handler :=
  match hs with
  | [] => None
  | (pattern, h) :: hs' =>
      if re_match pattern data then Some h else first_match hs' data
  end.

Definition route_callback (data : string) : option callback_handler :=
  first_match callback_handlers data.

(** The callback data a press on a button of the menu sends. *)
Definition menu_callbacks : list string :=
  omap (λ b, match button_target_of b with
             | CallbackData d => Some d
             | Url _ => None
             end) (concat start_keyboard).

(** A user who carries the code they were referred by: no constraint of
    the table forbids it.  The row is added to the sample table. *)
Module SelfReferred.

Definition carol : account :=
  {| wallet_address := None; taps := 2; mining_power := 100;
     referral_code := Some "CAROL"; referred_by := Some "CAROL";
     referral_count := 1; tap_timestamp := 500;
     joined_telegram := false; followed_twitter := false;
     token_balance := 700000 |}.

Definition table : store := <[5 := carol]> Sample.table.

End SelfReferred.

(** * Facts

    ** Binary64 arithmetic of the referral bonus *)

Module NumericFacts.
  Import Numeric.

Lemma digits2_pos_bounds p :
  2 ^ (Z.pos (digits2_pos p) - 1) <= Z.pos p < 2 ^ Z.pos (digits2_pos p).
Proof.
  induction p as [p IH|p IH|]; cbn [digits2_pos].
  - rewrite Pos2Z.inj_succ.
    replace (Z.succ (Z.pos (digits2_pos p)) - 1) with (Z.succ (Z.pos (digits2_pos p) - 1)) by lia.
    rewrite !Z.pow_succ_r by lia. lia.
  - rewrite Pos2Z.inj_succ.
    replace (Z.succ (Z.pos (digits2_pos p)) - 1) with (Z.succ (Z.pos (digits2_pos p) - 1)) by lia.
    rewrite !Z.pow_succ_r by lia. lia.
  - simpl. lia.
Qed.

Lemma digits2_pos_unique p n :
  2 ^ (n - 1) <= Z.pos p < 2 ^ n -> Z.pos (digits2_pos p) = n.
Proof.
  intros [Hlo Hhi]. pose proof (digits2_pos_bounds p) as [Blo Bhi].
  set (d := Z.pos (digits2_pos p)) in *.
  assert (0 < d) by (subst d; lia).
  destruct (Z.lt_trichotomy d n) as [Hlt|[Heq|Hgt]]; [|assumption|].
  - assert (2 ^ d <= 2 ^ (n - 1)) by (apply Z.pow_le_mono_r; lia). lia.
  - destruct (Z.le_gt_cases 0 n) as [Hn|Hn].
    + assert (2 ^ n <= 2 ^ (d - 1)) by (apply Z.pow_le_mono_r; lia). lia.
    + rewrite (Z.pow_neg_r 2 n) in Hhi by lia. lia.
Qed.

Lemma shr_m_shr_1 mrs : 0 <= shr_m mrs -> shr_m (shr_1 mrs) = shr_m mrs / 2.
Proof.
  destruct mrs as [m r s]. cbn [shr_m]. intros Hm.
  destruct m as [|[p|p|]|p]; cbn [shr_1 shr_m]; try lia.
  all: try reflexivity.
  - change (Z.pos p~1) with (2 * Z.pos p + 1). rewrite Z.add_comm, Z.mul_comm, Z.div_add by lia. reflexivity.
  - change (Z.pos p~0) with (2 * Z.pos p). rewrite Z.mul_comm, Z.div_mul by lia. reflexivity.
Qed.

Lemma shr_m_iter_pos k : forall mrs,
  0 <= shr_m mrs ->
  shr_m (SpecFloat.iter_pos shr_1 k mrs) = shr_m mrs / 2 ^ Z.pos k.
Proof.
  induction k as [k IH|k IH|]; intros mrs Hm; cbn [SpecFloat.iter_pos].
  - assert (H1 : 0 <= shr_m (shr_1 mrs)).
    { rewrite shr_m_shr_1 by assumption. apply Z.div_pos; lia. }
    assert (H2 : 0 <= shr_m (SpecFloat.iter_pos shr_1 k (shr_1 mrs))).
    { rewrite IH by assumption. apply Z.div_pos; lia. }
    rewrite IH, IH, shr_m_shr_1 by assumption.
    rewrite !Z.div_div by lia.
    f_equal. rewrite Pos2Z.inj_xI.
    rewrite Z.pow_add_r, Z.pow_mul_r by lia.
    replace (2 ^ 2) with (2 * 2) by reflexivity.
    rewrite Z.pow_1_r, Z.pow_mul_l. lia.
  - assert (H2 : 0 <= shr_m (SpecFloat.iter_pos shr_1 k mrs)).
    { rewrite IH by assumption. apply Z.div_pos; lia. }
    rewrite IH, IH by assumption.
    rewrite !Z.div_div by lia.
    f_equal. rewrite Pos2Z.inj_xO.
    rewrite <- Z.pow_add_r by lia. f_equal. lia.
  - rewrite shr_m_shr_1 by assumption. reflexivity.
Qed.

Lemma round_nearest_even_cases q l :
  round_nearest_even q l = q \/ round_nearest_even q l = q + 1.
Proof.
  destruct l as [|[ | | ]]; cbn [round_nearest_even]; auto.
  destruct (Z.even q); auto.
Qed.

(* rounding a product whose mantissa has more than 53 digits *)
Lemma binary_round_aux_bounds s P e :
  let d := Z.pos (digits2_pos P) in
  53 < d -> -1074 <= d + e - 53 -> d + e - 53 < 971 ->
  exists q e',
    binary_round_aux 53 1024 s (Z.pos P) e loc_Exact = S754_finite s q e' /\
    e <= e' /\
    Z.pos P - 2 ^ (d - 53) <= Z.pos q * 2 ^ (e' - e) <= Z.pos P + 2 ^ (d - 53).
Proof.
  intros d Hd Hlo Hhi.
  pose proof (digits2_pos_bounds P) as HP. fold d in HP.
  set (k := d - 53) in *.
  assert (Hk : exists kp, k = Z.pos kp).
  { destruct k eqn:E; try lia. eauto. }
  destruct Hk as [kp Hkp].
  unfold binary_round_aux.
  (* first shift *)
  assert (Hsh1 : shr_fexp 53 1024 (Z.pos P) e loc_Exact =
                 (SpecFloat.iter_pos shr_1 kp (Build_shr_record (Z.pos P) false false), e + k)).
  { unfold shr_fexp, fexp, emin. cbn [Zdigits2 shr_record_of_loc]. fold d.
    replace (Z.max (d + e - 53) (3 - 1024 - 53) - e) with (Z.pos kp) by lia.
    cbn [shr]. rewrite Hkp. reflexivity. }
  rewrite Hsh1.
  set (mrs := SpecFloat.iter_pos shr_1 kp _).
  assert (Hq : shr_m mrs = Z.pos P / 2 ^ k).
  { subst mrs. rewrite shr_m_iter_pos by (cbn; lia). rewrite Hkp. reflexivity. }
  set (q := Z.pos P / 2 ^ k) in *.
  assert (Hpk : 0 < 2 ^ k) by (apply Z.pow_pos_nonneg; lia).
  assert (Hd1 : 2 ^ (d - 1) = 2 ^ 52 * 2 ^ k).
  { rewrite <- Z.pow_add_r by lia. f_equal. lia. }
  assert (Hd2 : 2 ^ d = 2 ^ 53 * 2 ^ k).
  { rewrite <- Z.pow_add_r by lia. f_equal. lia. }
  assert (Hqb : 2 ^ 52 <= q < 2 ^ 53).
  { subst q. split.
    - apply Z.div_le_lower_bound; lia.
    - apply Z.div_lt_upper_bound; lia. }
  assert (Hqm : q * 2 ^ k <= Z.pos P < (q + 1) * 2 ^ k).
  { subst q. pose proof (Z.mul_div_le (Z.pos P) (2 ^ k) Hpk).
    pose proof (Z.mul_succ_div_gt (Z.pos P) (2 ^ k) Hpk). lia. }
  rewrite Hq.
  set (q' := round_nearest_even q (loc_of_shr_record mrs)).
  assert (Hq' : q' = q \/ q' = q + 1) by apply round_nearest_even_cases.
  assert (Hq'b : 2 ^ 52 <= q' <= 2 ^ 53) by lia.
  destruct (Z.eq_dec q' (2 ^ 53)) as [Hcarry|Hnc].
  - (* the mantissa was rounded up to 2^53 *)
    rewrite Hcarry.
    assert (Hsh2 : shr_fexp 53 1024 (2 ^ 53) (e + k) loc_Exact =
                   (Build_shr_record (2 ^ 52) false false, e + k + 1)).
    { unfold shr_fexp, fexp, emin.
      change (Zdigits2 (2 ^ 53)) with 54.
      replace (Z.max (54 + (e + k) - 53) (3 - 1024 - 53) - (e + k)) with 1 by lia.
      reflexivity. }
    rewrite Hsh2. cbn [shr_m].
    change (2 ^ 52) with (Z.pos (2 ^ 52)%positive).
    replace (e + k + 1 <=? 1024 - 53) with true by (symmetry; apply Z.leb_le; lia).
    eexists _, _. split; [reflexivity|]. split; [lia|].
    replace (e + k + 1 - e) with (k + 1) by lia.
    rewrite Z.pow_add_r by lia. change (2 ^ 1) with 2.
    change (Z.pos (2 ^ 52)) with (2 ^ 52). 
    change (2 ^ 53) with (2 * 2 ^ 52) in Hcarry. lia.
  - destruct q' as [|q'p|q'p] eqn:Eq'; try lia.
    assert (Hdig : Z.pos (digits2_pos q'p) = 53).
    { apply digits2_pos_unique. change (53 - 1) with 52. lia. }
    assert (Hsh2 : shr_fexp 53 1024 (Z.pos q'p) (e + k) loc_Exact =
                   (Build_shr_record (Z.pos q'p) false false, e + k)).
    { unfold shr_fexp, fexp, emin. cbn [Zdigits2 shr_record_of_loc].
      rewrite Hdig.
      replace (Z.max (53 + (e + k) - 53) (3 - 1024 - 53) - (e + k)) with 0 by lia.
      reflexivity. }
    rewrite Hsh2. cbn [shr_m].
    replace (e + k <=? 1024 - 53) with true by (symmetry; apply Z.leb_le; lia).
    eexists _, _. split; [reflexivity|]. split; [lia|].
    replace (e + k - e) with k by lia. lia.
Qed.

Lemma iter_xO_pow p n : Z.pos (Pos.iter xO p n) = Z.pos p * 2 ^ Z.pos n.
Proof.
  revert p. induction n as [n IH|n IH|]; intros p; cbn [Pos.iter].
  - change (Z.pos (Pos.iter xO (Pos.iter xO p n) n)~0)
      with (2 * Z.pos (Pos.iter xO (Pos.iter xO p n) n)).
    rewrite IH, IH. change (Z.pos n~1) with (2 * Z.pos n + 1).
    rewrite Z.pow_add_r, Z.pow_mul_r by lia.
    change (2 ^ 2) with (2 * 2). rewrite Z.pow_mul_l. lia.
  - rewrite IH, IH. change (Z.pos n~0) with (2 * Z.pos n).
    replace (2 * Z.pos n) with (Z.pos n + Z.pos n) by lia.
    rewrite Z.pow_add_r by lia. lia.
  - change (Z.pos p~0) with (2 * Z.pos p). lia.
Qed.

(* float(n) for an integer of at most 53 bits is exact *)
Lemma binary_round_exact s p :
  let d := Z.pos (digits2_pos p) in
  d <= 53 ->
  exists mz,
    binary_round 53 1024 s p 0 = S754_finite s mz (d - 53) /\
    Z.pos mz = Z.pos p * 2 ^ (53 - d) /\
    Z.pos (digits2_pos mz) = 53.
Proof.
  intros d Hd.
  pose proof (digits2_pos_bounds p) as Hp. fold d in Hp.
  assert (Hd0 : 0 < d) by (subst d; lia).
  unfold binary_round.
  assert (Hal : exists mz, shl_align p 0 (fexp 53 1024 (d + 0)) = (mz, d - 53)
                 /\ Z.pos mz = Z.pos p * 2 ^ (53 - d)).
  { unfold shl_align, fexp, emin.
    replace (Z.max (d + 0 - 53) (3 - 1024 - 53)) with (d - 53) by lia.
    destruct (d - 53 - 0) as [|δ|δ] eqn:E; try lia.
    - exists p. split; [f_equal; lia|].
      replace (53 - d) with 0 by lia. lia.
    - exists (Pos.iter xO p δ). split; [reflexivity|].
      rewrite iter_xO_pow. do 2 f_equal. lia. }
  destruct Hal as (mz & Hal & Hmz). fold d. rewrite Hal.
  assert (Hdig : Z.pos (digits2_pos mz) = 53).
  { apply digits2_pos_unique. rewrite Hmz.
    assert (H52 : 2 ^ (53 - 1) = 2 ^ (d - 1) * 2 ^ (53 - d)).
    { rewrite <- Z.pow_add_r by lia. f_equal. lia. }
    assert (H53 : 2 ^ 53 = 2 ^ d * 2 ^ (53 - d)).
    { rewrite <- Z.pow_add_r by lia. f_equal. lia. }
    assert (0 < 2 ^ (53 - d)) by (apply Z.pow_pos_nonneg; lia).
    rewrite H52, H53. nia. }
  exists mz. split; [|split; assumption].
  unfold binary_round_aux.
  assert (Hsh : shr_fexp 53 1024 (Z.pos mz) (d - 53) loc_Exact =
                (Build_shr_record (Z.pos mz) false false, d - 53)).
  { unfold shr_fexp, fexp, emin. cbn [Zdigits2 shr_record_of_loc].
    rewrite Hdig.
    replace (Z.max (53 + (d - 53) - 53) (3 - 1024 - 53) - (d - 53)) with 0 by lia.
    reflexivity. }
  rewrite Hsh. cbn [shr_m loc_of_shr_record round_nearest_even].
  rewrite Hsh. cbn [shr_m].
  replace (d - 53 <=? 1024 - 53) with true by (symmetry; apply Z.leb_le; lia).
  reflexivity.
Qed.

(* the product float(1000 n) * 0.1, in units of 2^e *)
Lemma tenth_of_thousands s p n :
  Z.pos p = 1000 * n -> n <= 2 ^ 31 ->
  exists q e' w,
    SFmul 53 1024 (binary_round 53 1024 s p 0) REFERRAL_BONUS_PERCENTAGE
      = S754_finite (xorb s false) q (e' - w) /\
    0 <= e' /\ 0 <= w /\
    4 * 100 * n * 2 ^ w - 2 ^ w <= 4 * (Z.pos q * 2 ^ e') <= 4 * 100 * n * 2 ^ w + 2 ^ w.
Proof.
  intros Hp Hn.
  pose proof (digits2_pos_bounds p) as Hpb.
  set (d := Z.pos (digits2_pos p)) in *.
  assert (Hd0 : 0 < d) by (subst d; lia).
  assert (Hd : d <= 41).
  { destruct (Z.le_gt_cases d 41) as [|Hgt]; [assumption|].
    assert (2 ^ 41 <= 2 ^ (d - 1)) by (apply Z.pow_le_mono_r; lia).
    change (2 ^ 31) with 2147483648 in Hn.
    change (2 ^ 41) with 2199023255552 in *. lia. }
  destruct (binary_round_exact s p) as (mz & Hx & Hmz & Hdig); [fold d; lia|].
  fold d in Hx, Hmz. rewrite Hx. unfold REFERRAL_BONUS_PERCENTAGE. cbn [SFmul].
  pose proof (digits2_pos_bounds mz) as Hmzb. rewrite Hdig in Hmzb.
  change (53 - 1) with 52 in Hmzb.
  pose proof (digits2_pos_bounds (mz * 7205759403792794)) as HPb.
  set (dM := Z.pos (digits2_pos (mz * 7205759403792794))) in *.
  rewrite Pos2Z.inj_mul in HPb.
  assert (HdM0 : 0 < dM) by (subst dM; lia).
  assert (HPlo : 2 ^ 104 <= Z.pos mz * 7205759403792794).
  { change (2 ^ 104) with (2 ^ 52 * 2 ^ 52). apply Z.mul_le_mono_nonneg; lia. }
  assert (HPhi : Z.pos mz * 7205759403792794 < 2 ^ 106).
  { change (2 ^ 106) with (2 ^ 53 * 2 ^ 53). apply Z.mul_lt_mono_nonneg; lia. }
  assert (HdMlo : 104 < dM).
  { destruct (Z.le_gt_cases dM 104) as [Hle|]; [|lia].
    assert (2 ^ dM <= 2 ^ 104) by (apply Z.pow_le_mono_r; lia). lia. }
  assert (HdMhi : dM <= 106).
  { destruct (Z.le_gt_cases dM 106) as [|Hgt]; [assumption|].
    assert (2 ^ 106 <= 2 ^ (dM - 1)) by (apply Z.pow_le_mono_r; lia). lia. }
  destruct (binary_round_aux_bounds (xorb s false) (mz * 7205759403792794) (d - 53 + -56))
    as (q & e' & Hr & He & Hb); fold dM; try lia.
  fold dM in Hb. rewrite Pos2Z.inj_mul in Hb.
  exists q, (e' - (d - 53 + -56)), (109 - d).
  split; [rewrite Hr; f_equal; lia|].
  split; [lia|]. split; [lia|].
  set (N := Z.pos q * 2 ^ (e' - (d - 53 + -56))) in *.
  assert (HT : 0 < 2 ^ (dM - 53) <= 2 ^ 53).
  { split; [apply Z.pow_pos_nonneg; lia|apply Z.pow_le_mono_r; lia]. }
  set (T := 2 ^ (dM - 53)) in *.
  assert (HW : 2 ^ (109 - d) = 2 ^ 56 * 2 ^ (53 - d)).
  { rewrite <- Z.pow_add_r by lia. f_equal. lia. }
  rewrite HW. rewrite Hmz, Hp in Hb.
  assert (HS : 1 <= 2 ^ (53 - d)).
  { change 1 with (2 ^ 0). apply Z.pow_le_mono_r; lia. }
  set (sc := 2 ^ (53 - d)) in *.
  assert (Hn0 : 0 < n) by lia.
  assert (HX : 0 <= n * sc <= 2 ^ 31 * sc) by nia.
  set (X := n * sc) in *.
  replace (1000 * n * sc * 7205759403792794) with (X * (1000 * 7205759403792794)) in Hb by (subst X; ring).
  replace (4 * 100 * n * (2 ^ 56 * sc)) with (X * (400 * 2 ^ 56)) by (subst X; ring).
  change (2 ^ 53) with 9007199254740992 in HT.
  change (2 ^ 31) with 2147483648 in HX.
  change (2 ^ 56) with 72057594037927936. lia.
Qed.

Lemma Qpower_2_scaled e w :
  0 <= e -> 0 <= w ->
  (Qpower 2 (e - w) == inject_Z (2 ^ e) / inject_Z (2 ^ w))%Q.
Proof.
  intros He Hw.
  assert (H2 : ~ (2 == 0)%Q) by discriminate.
  unfold Z.sub. rewrite Qpower_plus by assumption.
  rewrite Qpower_opp.
  change 2%Q with (inject_Z 2).
  rewrite <- !Zpower_Qpower by assumption.
  reflexivity.
Qed.

Lemma Qfloor_unique (x : Q) (z : Z) :
  (inject_Z z <= x)%Q -> (x < inject_Z (z + 1))%Q -> Qfloor x = z.
Proof.
  intros Hlo Hhi.
  pose proof (Qfloor_le x) as H1. pose proof (Qlt_floor x) as H2.
  assert (H3 : (inject_Z z < inject_Z (Qfloor x + 1))%Q)
    by (eapply Qle_lt_trans; eassumption).
  assert (H4 : (inject_Z (Qfloor x) < inject_Z (z + 1))%Q)
    by (eapply Qle_lt_trans; eassumption).
  rewrite <- Zlt_Qlt in H3, H4. lia.
Qed.

Ltac q2z :=
  unfold Qminus, Qdiv in *;
  unfold Qle, Qlt, Qplus, Qopp, Qmult, Qinv, inject_Z in *;
  cbn [Qnum Qden] in *; rewrite ?Pos2Z.inj_mul in *.

(* x within a quarter of the integer z rounds to z *)
Lemma numeric_to_int8_near (x : Q) (z : Z) :
  (inject_Z z - (1 # 4) <= x)%Q -> (x <= inject_Z z + (1 # 4))%Q ->
  numeric_to_int8 x = z.
Proof.
  intros Hlo Hhi. unfold numeric_to_int8.
  destruct (Qle_bool 0 x).
  - apply Qfloor_unique; destruct x as [a b]; q2z; lia.
  - enough (Qfloor (- x + (1 # 2)) = - z) by lia.
    apply Qfloor_unique; destruct x as [a b]; q2z; lia.
Qed.

(* the quotient N / W is within a quarter of z *)
Lemma Qdiv_near (N W z : Z) :
  0 < W -> 4 * z * W - W <= 4 * N <= 4 * z * W + W ->
  (inject_Z z - (1 # 4) <= inject_Z N / inject_Z W <= inject_Z z + (1 # 4))%Q.
Proof.
  intros HW HN. destruct W as [|w|w]; try lia.
  q2z. split; nia.
Qed.

Lemma float_value_finite s q e w :
  0 <= e -> 0 <= w ->
  (float_value (S754_finite s q (e - w)) ==
   (if s then -1 else 1) * (inject_Z (Z.pos q * 2 ^ e) / inject_Z (2 ^ w)))%Q.
Proof.
  intros He Hw. cbn [float_value].
  assert (HW : ~ (inject_Z (2 ^ w) == 0)%Q).
  { change 0%Q with (inject_Z 0). rewrite inject_Z_injective.
    pose proof (Z.pow_pos_nonneg 2 w). lia. }
  destruct s; cbv zeta; rewrite (Qpower_2_scaled e w He Hw), inject_Z_mult;
    field; exact HW.
Qed.

Lemma referrer_bonus_near m :
  int4 m ->
  (inject_Z (100 * m) - (1 # 4) <= float_value (referrer_bonus (1000 * m))
     <= inject_Z (100 * m) + (1 # 4))%Q.
Proof.
  intros [Hlo Hhi].
  unfold referrer_bonus, float_mul, float_of_int, prec, emax, binary_normalize.
  destruct (1000 * m) as [|p|p] eqn:Ep.
  - assert (m = 0) by lia. subst m. cbn. split; discriminate.
  - destruct (tenth_of_thousands false p m) as (q & e & w & Hr & He & Hw & Hb);
      [lia|lia|].
    rewrite Hr. cbn [xorb].
    rewrite float_value_finite by assumption.
    rewrite Qmult_1_l.
    apply Qdiv_near; [apply Z.pow_pos_nonneg; lia|].
    replace (4 * (100 * m) * 2 ^ w) with (4 * 100 * m * 2 ^ w) by ring. exact Hb.
  - destruct (tenth_of_thousands true p (- m)) as (q & e & w & Hr & He & Hw & Hb);
      [lia|lia|].
    rewrite Hr. cbn [xorb].
    rewrite float_value_finite by assumption.
    assert (HW : 0 < 2 ^ w) by (apply Z.pow_pos_nonneg; lia).
    pose proof (Qdiv_near (Z.pos q * 2 ^ e) (2 ^ w) (100 * - m) HW) as Hn.
    replace (4 * (100 * - m) * 2 ^ w) with (4 * 100 * - m * 2 ^ w) in Hn by ring.
    specialize (Hn Hb).
    replace (100 * m) with (- (100 * - m)) by ring.
    generalize dependent (inject_Z (Z.pos q * 2 ^ e) / inject_Z (2 ^ w))%Q.
    intros x Hx. rewrite inject_Z_opp.
    generalize dependent (inject_Z (100 * - m)). intros y Hx.
    destruct x as [a b], y as [c d]. q2z. nia.
Qed.

Lemma bonus_credit_exact m b :
  int4 m ->
  numeric_to_int8 (inject_Z b + float_value (referrer_bonus (1000 * m)))
  = b + 100 * m.
Proof.
  intros Hm. apply numeric_to_int8_near.
  all: pose proof (referrer_bonus_near m Hm) as H; revert H;
    generalize (float_value (referrer_bonus (1000 * m))); intros x H;
    rewrite inject_Z_plus;
    generalize dependent (inject_Z (100 * m)); intros y H;
    generalize (inject_Z b); intros z;
    destruct x as [a c], y as [d e], z as [f g]; q2z; nia.
Qed.

(* for an INTEGER mining power the product is zero or a finite number *)
Lemma referrer_bonus_finite m :
  int4 m ->
  match referrer_bonus (1000 * m) with
  | S754_zero _ | S754_finite _ _ _ => True
  | _ => False
  end.
Proof.
  intros [Hlo Hhi].
  unfold referrer_bonus, float_mul, float_of_int, prec, emax, binary_normalize.
  destruct (1000 * m) as [|p|p] eqn:Ep.
  - exact I.
  - destruct (tenth_of_thousands false p m) as (q & e & w & Hr & _);
      [lia|lia|]. rewrite Hr. exact I.
  - destruct (tenth_of_thousands true p (- m)) as (q & e & w & Hr & _);
      [lia|lia|]. rewrite Hr. exact I.
Qed.

Lemma bonus_round_exact m :
  int4 m ->
  numeric_to_int8 (float_value (referrer_bonus (1000 * m))) = 100 * m.
Proof.
  intros Hm. apply numeric_to_int8_near; apply (referrer_bonus_near m Hm).
Qed.

(* the sign given to the rounding is the sign of its result *)
Lemma binary_round_aux_sign s m e l :
  match binary_round_aux 53 1024 s m e l with
  | S754_finite s' _ _ => s' = s
  | _ => True
  end.
Proof.
  unfold binary_round_aux.
  destruct (shr_fexp 53 1024 m e l) as [mrs' e'].
  destruct (shr_fexp 53 1024 _ e' loc_Exact) as [mrs'' e''].
  destruct (shr_m mrs''); [exact I| |exact I].
  destruct (e'' <=? 1024 - 53); [reflexivity|exact I].
Qed.

Lemma float_value_nonneg x :
  match x with S754_finite s _ _ => s = false | _ => True end ->
  (0 <= float_value x)%Q.
Proof.
  destruct x as [s|s| |s m e]; cbn [float_value]; try discriminate.
  intros ->. apply Qmult_le_0_compat; [discriminate|].
  apply Qpower_0_le. discriminate.
Qed.

Lemma referrer_bonus_nonneg tokens :
  0 <= tokens -> (0 <= float_value (referrer_bonus tokens))%Q.
Proof.
  intros Ht. apply float_value_nonneg.
  unfold referrer_bonus, float_mul, float_of_int, prec, emax,
    binary_normalize, REFERRAL_BONUS_PERCENTAGE.
  destruct tokens as [|p|p]; [exact I| |lia].
  unfold binary_round.
  destruct (shl_align p 0 _) as [mz ez].
  pose proof (binary_round_aux_sign false (Z.pos mz) ez loc_Exact) as Hx.
  destruct (binary_round_aux 53 1024 false (Z.pos mz) ez loc_Exact)
    as [sx|sx| |sx mx ex]; cbn [SFmul]; try exact I.
  subst sx. apply binary_round_aux_sign.
Qed.

(* adding a non-negative amount never lowers the stored integer *)
Lemma numeric_to_int8_add_nonneg (b : Z) (v : Q) :
  (0 <= v)%Q -> b <= numeric_to_int8 (inject_Z b + v).
Proof.
  intros Hv. unfold numeric_to_int8.
  destruct (Qle_bool 0 (inject_Z b + v)).
  - rewrite <- (Qfloor_Z b) at 1. apply Qfloor_resp_le.
    destruct v as [n d]. q2z. nia.
  - enough (Qfloor (- (inject_Z b + v) + (1 # 2)) <= - b) by lia.
    assert (H : (- (inject_Z b + v) + (1 # 2) < inject_Z (- b + 1))%Q).
    { destruct v as [n d]. q2z. nia. }
    pose proof (Qfloor_le (- (inject_Z b + v) + (1 # 2))) as Hf.
    assert (H' : (inject_Z (Qfloor (- (inject_Z b + v) + (1 # 2)))
                  < inject_Z (- b + 1))%Q) by (eapply Qle_lt_trans; eassumption).
    rewrite <- Zlt_Qlt in H'. lia.
Qed.

End NumericFacts.

(** ** The handlers, row by row *)

(** Reduce the projections of an explicit row. *)
Ltac fields :=
  unfold after_tap, credit_bonus, set_tap, set_balance, set_wallet,
    default_row in *;
  cbn [wallet_address taps mining_power referral_code referred_by
       referral_count tap_timestamp joined_telegram followed_twitter
       token_balance] in *.

Lemma eligible_spec (a : account) (now : Z) :
  eligible (taps a) (tap_timestamp a) now = true ↔ tap_allowed a now.
Proof.
  unfold eligible, tap_allowed.
  rewrite orb_true_iff, Z.ltb_lt, Z.ltb_lt. lia.
Qed.

Lemma handle_tap_registered (uid now : Z) (c : conn) (a : account) :
  rows c !! uid = Some a →
  handle_tap uid now c =
    if eligible (taps a) (tap_timestamp a) now
    then (Tapped (new_tokens (mining_power a)),
          referral_commit uid (new_tokens (mining_power a))
            (tap_commit uid now (taps a) (mining_power a) c))
    else (TapRejected DailyLimitReached, c).
Proof.
  intros Ha. unfold handle_tap, select_tap_state. rewrite Ha. reflexivity.
Qed.

Lemma handle_tap_unregistered (uid now : Z) (c : conn) :
  rows c !! uid = None →
  handle_tap uid now c = (TapRejected NotRegistered, c).
Proof.
  intros Ha. unfold handle_tap, select_tap_state. rewrite Ha. reflexivity.
Qed.

Lemma rows_tap_commit (uid now : Z) (c : conn) (a : account) (k : Z) :
  rows c !! uid = Some a →
  rows (tap_commit uid now (taps a) (mining_power a) c) !! k =
    if decide (uid = k) then Some (after_tap now a) else rows c !! k.
Proof.
  intros Ha. unfold tap_commit, sql_update_tap. cbn [commit execute rows].
  rewrite lookup_alter. case_decide; [|reflexivity].
  rewrite Ha. reflexivity.
Qed.

Lemma rows_referral_commit (uid tokens : Z) (c : conn) (a : account) (k : Z) :
  rows c !! uid = Some a →
  rows (referral_commit uid tokens c) !! k =
    match referrer_of a with
    | Some code =>
        (λ b, if decide (referral_code b = Some code)
              then credit_bonus (referrer_bonus tokens) b else b)
          <$> rows c !! k
    | None => rows c !! k
    end.
Proof.
  intros Ha. unfold referral_commit, select_referred_by, referrer_of.
  rewrite Ha. cbn [fmap option_fmap option_map].
  destruct (referred_by a) as [code|]; [|reflexivity].
  destruct (String.eqb code ""); [reflexivity|].
  unfold sql_credit_referrer. cbn [commit execute rows].
  apply lookup_fmap.
Qed.

(** The table after an allowed tap: the tapping row is rewritten, then
    every row carrying the referral code is credited. *)
Lemma rows_handle_tap (uid now : Z) (c : conn) (a : account) (k : Z) :
  rows c !! uid = Some a → tap_allowed a now →
  rows (snd (handle_tap uid now c)) !! k =
    apply_credit a <$>
      (if decide (uid = k) then Some (after_tap now a) else rows c !! k).
Proof.
  intros Ha Hok. rewrite (handle_tap_registered _ _ _ _ Ha).
  apply eligible_spec in Hok. rewrite Hok. cbn [snd].
  assert (Hc1 : rows (tap_commit uid now (taps a) (mining_power a) c) !! uid
                = Some (after_tap now a)).
  { rewrite (rows_tap_commit _ _ _ _ _ Ha). case_decide; [reflexivity|done]. }
  rewrite (rows_referral_commit _ _ _ _ _ Hc1).
  rewrite (rows_tap_commit _ _ _ _ _ Ha).
  unfold apply_credit.
  change (referrer_of (after_tap now a)) with (referrer_of a).
  destruct (referrer_of a); [reflexivity|].
  destruct (if decide (uid = k) then _ else _); reflexivity.
Qed.

(** * Tap eligibility *)

Lemma tapped_iff_allowed (c : conn) (uid now : Z) (a : account) :
  rows c !! uid = Some a →
  is_tapped (fst (handle_tap uid now c)) ↔ tap_allowed a now.
Proof.
  intros Ha. rewrite (handle_tap_registered _ _ _ _ Ha).
  rewrite <- eligible_spec.
  destruct (eligible (taps a) (tap_timestamp a) now); cbn [fst].
  - split; [reflexivity|]. intros _. eexists. reflexivity.
  - split; [intros [r Hr]; discriminate|discriminate].
Qed.

(** C1. For a registered account a tap request succeeds exactly when
    [taps < MAX_TAPS_PER_DAY] or more than 24 hours have passed since
    [tap_timestamp]; when neither holds the reply is the rejection
    with reason [DailyLimitReached]. *)
Theorem tap_succeeds_iff_eligible (c : conn) (uid now : Z) (a : account) :
  rows c !! uid = Some a →
  (is_tapped (fst (handle_tap uid now c)) ↔
     taps a < MAX_TAPS_PER_DAY ∨ now - tap_timestamp a > ONE_DAY) ∧
  (¬ (taps a < MAX_TAPS_PER_DAY ∨ now - tap_timestamp a > ONE_DAY) →
     fst (handle_tap uid now c) = TapRejected DailyLimitReached).
Proof.
  intros Ha. pose proof (tapped_iff_allowed c uid now a Ha) as Hiff.
  unfold tap_allowed in Hiff. split; [exact Hiff|].
  intros Hn. rewrite (handle_tap_registered _ _ _ _ Ha).
  destruct (eligible (taps a) (tap_timestamp a) now) eqn:E; [|reflexivity].
  exfalso. apply Hn. apply (eligible_spec a now). exact E.
Qed.

Lemma tap_succeeds_iff_eligible_witness :
  rows (connect Sample.table) !! 3 = Some Sample.capped ∧
  (is_tapped (fst (handle_tap 3 (ONE_DAY + 1) (connect Sample.table))) ↔
     taps Sample.capped < MAX_TAPS_PER_DAY
     ∨ ONE_DAY + 1 - tap_timestamp Sample.capped > ONE_DAY) ∧
  (¬ (taps Sample.capped < MAX_TAPS_PER_DAY
      ∨ ONE_DAY + 1 - tap_timestamp Sample.capped > ONE_DAY) →
     fst (handle_tap 3 (ONE_DAY + 1) (connect Sample.table))
       = TapRejected DailyLimitReached).
Proof.
  split; [reflexivity|].
  apply (tap_succeeds_iff_eligible (connect Sample.table) 3 (ONE_DAY + 1)
           Sample.capped).
  reflexivity.
Defined.

(** The tap counter after an allowed tap is the value of line 156. *)
Lemma allowed_tap_counter (c : conn) (uid now : Z) (a : account) :
  rows c !! uid = Some a → tap_allowed a now →
  taps <$> rows (snd (handle_tap uid now c)) !! uid
    = Some (if taps a <? MAX_TAPS_PER_DAY then taps a + 1 else 1).
Proof.
  intros Ha Hok. rewrite (rows_handle_tap _ _ _ _ _ Ha Hok).
  case_decide; [|done]. cbn [fmap option_fmap option_map].
  f_equal. unfold apply_credit.
  destruct (referrer_of a); [|reflexivity].
  case_decide; reflexivity.
Qed.

(** Window rollover at the cap: with [taps = MAX_TAPS_PER_DAY] and the
    last tap more than 24 hours old, the next tap succeeds and leaves
    [taps = 1]. *)
Lemma tap_rollover_at_cap (c : conn) (uid now : Z) (a : account) :
  rows c !! uid = Some a →
  taps a = MAX_TAPS_PER_DAY → now - tap_timestamp a > ONE_DAY →
  is_tapped (fst (handle_tap uid now c)) ∧
  taps <$> rows (snd (handle_tap uid now c)) !! uid = Some 1.
Proof.
  intros Ha Ht Hw.
  assert (Hok : tap_allowed a now) by (right; exact Hw).
  split.
  - apply (tapped_iff_allowed _ _ _ _ Ha). exact Hok.
  - rewrite (allowed_tap_counter _ _ _ _ Ha Hok), Ht. reflexivity.
Qed.

(** Below the cap the counter is incremented whether or not the window
    has expired. *)
Lemma tap_below_cap_increments (c : conn) (uid now : Z) (a : account) :
  rows c !! uid = Some a → taps a < MAX_TAPS_PER_DAY →
  taps <$> rows (snd (handle_tap uid now c)) !! uid = Some (taps a + 1).
Proof.
  intros Ha Ht.
  assert (Hok : tap_allowed a now) by (left; exact Ht).
  rewrite (allowed_tap_counter _ _ _ _ Ha Hok).
  apply Z.ltb_lt in Ht. rewrite Ht. reflexivity.
Qed.

(** Line 156 and a reset on expiry differ only below the cap with an
    expired window. *)
Lemma new_taps_matches_reset (a : account) (now : Z) :
  tap_allowed a now →
  ¬ (taps a < MAX_TAPS_PER_DAY ∧ now - tap_timestamp a > ONE_DAY) →
  new_taps (taps a) = spec_new_taps a now.
Proof.
  unfold tap_allowed, new_taps, spec_new_taps. intros Hok Hn.
  destruct (Z.ltb_spec (taps a) MAX_TAPS_PER_DAY);
    destruct (Z.ltb_spec ONE_DAY (now - tap_timestamp a)); lia.
Qed.

(** An allowed tap of a row below the cap whose window has expired:
    line 156 looks at the counter only, the counter goes up by one, and a
    reset on expiry would have left 1. *)
Lemma stale_counter_kept (c : conn) (uid now : Z) (a : account) :
  rows c !! uid = Some a → 0 < taps a < MAX_TAPS_PER_DAY →
  now - tap_timestamp a > ONE_DAY →
  is_tapped (fst (handle_tap uid now c)) ∧
  taps <$> (rows (snd (handle_tap uid now c)) !! uid) = Some (taps a + 1) ∧
  spec_new_taps a now = 1 ∧
  taps a + 1 ≠ spec_new_taps a now.
Proof.
  intros Ha Ht Hw.
  assert (Hok : tap_allowed a now) by (right; exact Hw).
  assert (Hspec : spec_new_taps a now = 1).
  { unfold spec_new_taps.
    assert (E : (ONE_DAY <? now - tap_timestamp a) = true)
      by (apply Z.ltb_lt; lia).
    rewrite E. reflexivity. }
  split; [apply (tapped_iff_allowed _ _ _ _ Ha); exact Hok|].
  split; [apply (tap_below_cap_increments _ _ _ _ Ha); lia|].
  split; [exact Hspec|]. rewrite Hspec. lia.
Qed.

(** C2, at the input where the code departs from it.  User 4 has used 9
    taps and last tapped five days ago.  The tap is allowed and the
    24 hour window has expired, so the counter should restart at 1; line
    156 tests the counter, not the window, and writes 10.  The next
    request, a moment later, is refused with "You have reached the
    maximum taps for today", after one tap in five days. *)
Theorem stale_window_counter_not_reset :
  let c := connect Sample.table in
  let now := tap_timestamp Sample.almost + 5 * ONE_DAY in
  let c1 := snd (handle_tap 4 now c) in
  rows c !! 4 = Some Sample.almost ∧
  taps Sample.almost = MAX_TAPS_PER_DAY - 1 ∧
  now - tap_timestamp Sample.almost > ONE_DAY ∧
  is_tapped (fst (handle_tap 4 now c)) ∧
  spec_new_taps Sample.almost now = 1 ∧
  taps <$> (rows c1 !! 4) = Some MAX_TAPS_PER_DAY ∧
  handle_tap 4 (now + 1) c1 = (TapRejected DailyLimitReached, c1).
Proof.
  cbv zeta.
  assert (Hw : tap_timestamp Sample.almost + 5 * ONE_DAY
               - tap_timestamp Sample.almost > ONE_DAY)
    by (unfold ONE_DAY; lia).
  destruct (stale_counter_kept (connect Sample.table) 4
              (tap_timestamp Sample.almost + 5 * ONE_DAY) Sample.almost
              eq_refl ltac:(unfold MAX_TAPS_PER_DAY; cbn; lia) Hw)
    as (Htap & Hcount & Hspec & _).
  split; [reflexivity|]. split; [reflexivity|]. split; [exact Hw|].
  split; [exact Htap|]. split; [exact Hspec|]. split; [exact Hcount|].
  reflexivity.
Qed.

(** * Rejected taps *)

(** C4. A tap that is not eligible, or that comes from a user with no
    row, leaves the connection as it was: no row changes and nothing is
    committed; the replies are the rejections with reasons
    [DailyLimitReached] and [NotRegistered]. *)
Theorem rejected_tap_mutates_nothing (c : conn) (uid now : Z) :
  (∀ a, rows c !! uid = Some a →
        ¬ (taps a < MAX_TAPS_PER_DAY ∨ now - tap_timestamp a > ONE_DAY) →
        handle_tap uid now c = (TapRejected DailyLimitReached, c)) ∧
  (rows c !! uid = None →
   handle_tap uid now c = (TapRejected NotRegistered, c)).
Proof.
  split.
  - intros a Ha Hn. rewrite (handle_tap_registered _ _ _ _ Ha).
    destruct (eligible (taps a) (tap_timestamp a) now) eqn:E; [|reflexivity].
    exfalso. apply Hn. apply (eligible_spec a now). exact E.
  - apply handle_tap_unregistered.
Qed.

Lemma rejected_tap_mutates_nothing_witness :
  handle_tap 3 5 (connect Sample.table)
    = (TapRejected DailyLimitReached, connect Sample.table) ∧
  handle_tap 9 5 (connect Sample.table)
    = (TapRejected NotRegistered, connect Sample.table).
Proof.
  split.
  - apply (proj1 (rejected_tap_mutates_nothing (connect Sample.table) 3 5)
             Sample.capped); [reflexivity|].
    unfold MAX_TAPS_PER_DAY, ONE_DAY. cbn. lia.
  - apply (proj2 (rejected_tap_mutates_nothing (connect Sample.table) 9 5)).
    reflexivity.
Defined.

(** * Rewards *)

(** [apply_credit] writes the balance and nothing else. *)
Lemma apply_credit_frame (tapper b : account) :
  apply_credit tapper b = set_balance (token_balance (apply_credit tapper b)) b.
Proof.
  unfold apply_credit. destruct (referrer_of tapper) as [code|].
  - case_decide; [reflexivity|]. destruct b; reflexivity.
  - destruct b; reflexivity.
Qed.

(** The balance of the tapping row once [handle_tap] has returned. *)
Lemma tapped_row_balance (now : Z) (a : account) :
  int4 (mining_power a) →
  token_balance (apply_credit a (after_tap now a))
    = token_balance a + TAP_REWARD * mining_power a + own_credit a.
Proof.
  intros Hm. unfold apply_credit, own_credit.
  destruct (referrer_of a) as [code|]; [|cbn; unfold new_tokens; lia].
  change (referral_code (after_tap now a)) with (referral_code a).
  case_decide; [|cbn; unfold new_tokens; lia].
  unfold credit_bonus, new_tokens, TAP_REWARD. cbn [set_balance token_balance after_tap set_tap].
  rewrite (NumericFacts.bonus_credit_exact _ _ Hm).
  assert (Hd : 1000 * mining_power a / 10 = 100 * mining_power a)
    by (symmetry; apply Z.div_unique_exact; lia).
  unfold new_tokens, TAP_REWARD. rewrite Hd. lia.
Qed.

Lemma tap_sequence_balance (uid : Z) (times : list Z) :
  ∀ (c : conn) (a : account),
    rows c !! uid = Some a → int4 (mining_power a) →
    Forall is_tapped (fst (tap_sequence uid times c)) →
    ∃ a', rows (snd (tap_sequence uid times c)) !! uid = Some a' ∧
          a' = set_tap (taps a') (tap_timestamp a') 0
                 (set_balance (token_balance a') a) ∧
          token_balance a' =
            token_balance a
            + Z.of_nat (length times) * (TAP_REWARD * mining_power a)
            + Z.of_nat (length times) * own_credit a.
Proof.
  induction times as [|now times IH]; intros c a Ha Hm Hall.
  - exists a. cbn [tap_sequence snd length]. split; [exact Ha|].
    split; [destruct a; fields; f_equal; lia|].
    change (Z.of_nat 0) with 0. lia.
  - cbn [tap_sequence] in *.
    destruct (handle_tap uid now c) as [r c1] eqn:E1.
    destruct (tap_sequence uid times c1) as [rs c2] eqn:E2.
    cbn [fst snd] in *. apply Forall_cons in Hall as [Hr Hrs].
    assert (Hok : tap_allowed a now).
    { apply (tapped_iff_allowed c uid now a Ha). rewrite E1. exact Hr. }
    assert (Ha1 : rows c1 !! uid = Some (apply_credit a (after_tap now a))).
    { replace c1 with (snd (handle_tap uid now c)) by (rewrite E1; reflexivity).
      rewrite (rows_handle_tap _ _ _ _ _ Ha Hok). case_decide; [reflexivity|done]. }
    set (a1 := apply_credit a (after_tap now a)) in *.
    assert (Hfr : a1 = set_balance (token_balance a1) (after_tap now a))
      by apply apply_credit_frame.
    assert (Hm1 : mining_power a1 = mining_power a) by (rewrite Hfr; reflexivity).
    assert (Ho1 : own_credit a1 = own_credit a) by (rewrite Hfr; reflexivity).
    destruct (IH c1 a1 Ha1) as (a' & Ha' & Hfr' & Hb').
    { rewrite Hm1. exact Hm. }
    { rewrite E2. exact Hrs. }
    rewrite E2 in Ha'. cbn [snd] in Ha'.
    exists a'. split; [exact Ha'|]. split.
    + rewrite Hfr'. rewrite Hfr. destruct a; fields. f_equal; lia.
    + rewrite Hb', Hm1, Ho1. subst a1. rewrite (tapped_row_balance _ _ Hm).
      rewrite length_cons, Nat2Z.inj_succ. lia.
Qed.

(** A successful tap replies with the reward [1000 * m]; the tap's own
    update adds exactly that reward and sets [tap_timestamp]; when the
    handler returns the balance has grown by the reward plus the
    account's own referral credit. *)
Lemma successful_tap_row (c : conn) (uid now : Z) (a : account) :
  rows c !! uid = Some a → int4 (mining_power a) →
  is_tapped (fst (handle_tap uid now c)) →
  fst (handle_tap uid now c) = Tapped (1000 * mining_power a) ∧
  (∃ a1, rows (tap_commit uid now (taps a) (mining_power a) c) !! uid
           = Some a1 ∧
         token_balance a1 = token_balance a + 1000 * mining_power a ∧
         tap_timestamp a1 = now) ∧
  (∃ a2, rows (snd (handle_tap uid now c)) !! uid = Some a2 ∧
         token_balance a2
           = token_balance a + 1000 * mining_power a + own_credit a ∧
         tap_timestamp a2 = now ∧
         mining_power a2 = mining_power a).
Proof.
  intros Ha Hm Hr.
  assert (Hok : tap_allowed a now)
    by (apply (tapped_iff_allowed c uid now a Ha); exact Hr).
  split; [|split].
  - rewrite (handle_tap_registered _ _ _ _ Ha).
    apply eligible_spec in Hok. rewrite Hok. reflexivity.
  - exists (after_tap now a). rewrite (rows_tap_commit _ _ _ _ _ Ha).
    case_decide; [|done]. repeat split.
  - exists (apply_credit a (after_tap now a)).
    rewrite (rows_handle_tap _ _ _ _ _ Ha Hok).
    case_decide; [|done]. split; [reflexivity|].
    split; [apply (tapped_row_balance _ _ Hm)|].
    rewrite apply_credit_frame. split; reflexivity.
Qed.

(** * Referral bonus *)

Lemma referrer_of_set (a : account) (code : string) :
  referred_by a = Some code → code ≠ "" → referrer_of a = Some code.
Proof.
  intros Hr Hne. unfold referrer_of. rewrite Hr.
  destruct (String.eqb_spec code ""); [contradiction|reflexivity].
Qed.

(** C5. A tap with reward [R] by a user whose [referred_by] names a
    referral code credits every account carrying that code, the referrer,
    with exactly [round(R * 0.10)], which is [R / 10]; the credit is a
    second commit made after the commit of the tap's own update, and the
    rows that do not carry the code are left as the first commit wrote
    them.  When no account carries the code the second statement changes
    nothing and the tap's own update stays committed. *)
Theorem referral_bonus_credit (c : conn) (uid now : Z) (a : account)
    (code : string) :
  rows c !! uid = Some a → tap_allowed a now →
  referred_by a = Some code → code ≠ "" → int4 (mining_power a) →
  let R := TAP_REWARD * mining_power a in
  let bonus := Numeric.numeric_to_int8 (Numeric.float_value (referrer_bonus R)) in
  let c1 := tap_commit uid now (taps a) (mining_power a) c in
  let c2 := snd (handle_tap uid now c) in
  fst (handle_tap uid now c) = Tapped R ∧
  bonus = R / 10 ∧
  commits c2 = rows c2 :: rows c1 :: commits c ∧
  rows c1 !! uid = Some (after_tap now a) ∧
  (∀ k b, rows c1 !! k = Some b → referral_code b = Some code →
     ∃ b', rows c2 !! k = Some b' ∧
           token_balance b' = token_balance b + bonus ∧
           b' = set_balance (token_balance b') b) ∧
  (∀ k b, rows c1 !! k = Some b → referral_code b ≠ Some code →
     rows c2 !! k = Some b) ∧
  ((∀ k b, rows c !! k = Some b → referral_code b ≠ Some code) →
     rows c2 = rows c1 ∧ rows c2 !! uid = Some (after_tap now a)).
Proof.
  intros Ha Hok Hr Hne Hm R bonus c1 c2.
  pose proof (referrer_of_set a code Hr Hne) as Hro.
  assert (Hbonus : ∀ b, Numeric.numeric_to_int8
                          (inject_Z b + Numeric.float_value (referrer_bonus R))
                        = b + 100 * mining_power a).
  { intros b. apply NumericFacts.bonus_credit_exact. exact Hm. }
  assert (Hb0 : bonus = 100 * mining_power a).
  { apply NumericFacts.bonus_round_exact. exact Hm. }
  assert (Hc1 : ∀ k, rows c1 !! k =
                     if decide (uid = k) then Some (after_tap now a)
                     else rows c !! k)
    by (intros k; apply rows_tap_commit; exact Ha).
  assert (Hc1u : rows c1 !! uid = Some (after_tap now a))
    by (rewrite Hc1; case_decide; [reflexivity|done]).
  assert (Hc2 : c2 = referral_commit uid (new_tokens (mining_power a)) c1).
  { subst c2. rewrite (handle_tap_registered _ _ _ _ Ha).
    apply eligible_spec in Hok. rewrite Hok. reflexivity. }
  assert (Hrows2 : ∀ k, rows c2 !! k =
            (λ b, if decide (referral_code b = Some code)
                  then credit_bonus (referrer_bonus R) b else b)
              <$> rows c1 !! k).
  { intros k. rewrite Hc2, (rows_referral_commit _ _ _ _ _ Hc1u).
    change (referrer_of (after_tap now a)) with (referrer_of a).
    rewrite Hro. reflexivity. }
  split; [|split; [|split; [|split; [|split; [|split]]]]].
  - rewrite (handle_tap_registered _ _ _ _ Ha).
    apply eligible_spec in Hok. rewrite Hok. reflexivity.
  - rewrite Hb0. subst R. unfold TAP_REWARD.
    apply Z.div_unique_exact; lia.
  - rewrite Hc2. unfold referral_commit, select_referred_by.
    rewrite Hc1u. cbn [fmap option_fmap option_map].
    change (referred_by (after_tap now a)) with (referred_by a).
    rewrite Hr. destruct (String.eqb_spec code ""); [contradiction|].
    reflexivity.
  - exact Hc1u.
  - intros k b Hk Hcode. rewrite Hrows2, Hk.
    cbn [fmap option_fmap option_map]. case_decide; [|contradiction].
    eexists. split; [reflexivity|]. split; [|reflexivity].
    cbn [credit_bonus set_balance token_balance].
    rewrite Hbonus, Hb0. reflexivity.
  - intros k b Hk Hcode. rewrite Hrows2, Hk.
    cbn [fmap option_fmap option_map]. case_decide; [contradiction|reflexivity].
  - intros Hnone.
    assert (Hsame : rows c2 = rows c1).
    { apply map_eq. intros k. rewrite Hrows2.
      destruct (rows c1 !! k) as [b|] eqn:Ek; [|reflexivity].
      cbn [fmap option_fmap option_map]. case_decide as Hcode; [|reflexivity].
      exfalso. rewrite Hc1 in Ek. case_decide as Hu.
      + injection Ek as <-. apply (Hnone uid a Ha). exact Hcode.
      + apply (Hnone k b Ek). exact Hcode. }
    split; [exact Hsame|]. rewrite Hsame. exact Hc1u.
Qed.

Lemma referral_bonus_credit_witness :
  rows (connect Sample.table) !! 2 = Some Sample.bob ∧
  tap_allowed Sample.bob 2000 ∧
  referred_by Sample.bob = Some "ALICE" ∧ "ALICE" ≠ "" ∧
  int4 (mining_power Sample.bob) ∧
  ∃ b', rows (snd (handle_tap 2 2000 (connect Sample.table))) !! 1 = Some b' ∧
        token_balance b' = 500000 + 25000.
Proof.
  assert (Hok : tap_allowed Sample.bob 2000) by (left; reflexivity).
  assert (Hne : "ALICE" ≠ "") by discriminate.
  assert (Hm : int4 (mining_power Sample.bob)) by (unfold int4; cbn; lia).
  repeat (split; [first [reflexivity | assumption]|]).
  destruct (referral_bonus_credit (connect Sample.table) 2 2000 Sample.bob
              "ALICE" eq_refl Hok eq_refl Hne Hm)
    as (_ & Hb & _ & _ & Hcredit & _).
  destruct (Hcredit 1 Sample.alice eq_refl eq_refl) as (b' & Hb' & Hbal & _).
  exists b'. split; [exact Hb'|]. rewrite Hbal, Hb. reflexivity.
Defined.

(** * Frame of a tap *)

(** C10. A successful tap creates and deletes no row.  In every row it
    leaves [mining_power], [wallet_address], [referral_code],
    [referred_by], [referral_count], [joined_telegram] and
    [followed_twitter] as they were; [taps] and [tap_timestamp] change in
    the tapping row only; and a row that is neither the tapping row nor a
    row carrying the code the tapper was referred by is not changed at
    all. *)
Theorem tap_frame (c : conn) (uid now : Z) (a : account) :
  rows c !! uid = Some a → is_tapped (fst (handle_tap uid now c)) →
  ∀ k,
    (rows c !! k = None → rows (snd (handle_tap uid now c)) !! k = None) ∧
    (∀ b, rows c !! k = Some b →
       ∃ b', rows (snd (handle_tap uid now c)) !! k = Some b' ∧
             mining_power b' = mining_power b ∧
             wallet_address b' = wallet_address b ∧
             referral_code b' = referral_code b ∧
             referred_by b' = referred_by b ∧
             referral_count b' = referral_count b ∧
             joined_telegram b' = joined_telegram b ∧
             followed_twitter b' = followed_twitter b ∧
             (k ≠ uid → taps b' = taps b ∧
                        tap_timestamp b' = tap_timestamp b) ∧
             (k ≠ uid → ¬ is_referrer_of a b → b' = b)).
Proof.
  intros Ha Hr k.
  assert (Hok : tap_allowed a now)
    by (apply (tapped_iff_allowed c uid now a Ha); exact Hr).
  rewrite (rows_handle_tap _ _ _ _ _ Ha Hok). split.
  - intros Hk. case_decide as Hu; [subst k; congruence|].
    rewrite Hk. reflexivity.
  - intros b Hk. case_decide as Hu.
    + subst k. assert (b = a) by congruence. subst b.
      exists (apply_credit a (after_tap now a)).
      split; [reflexivity|]. rewrite apply_credit_frame.
      repeat split; done.
    + rewrite Hk. exists (apply_credit a b).
      split; [reflexivity|].
      assert (Hfr : apply_credit a b
                    = set_balance (token_balance (apply_credit a b)) b)
        by apply apply_credit_frame.
      rewrite Hfr. repeat split.
      intros _ Hnr. rewrite <- Hfr. unfold apply_credit.
      destruct (referrer_of a) as [code|] eqn:Ec; [|reflexivity].
      case_decide as Hcode; [|reflexivity].
      exfalso. apply Hnr. exists code. split; [exact Ec|exact Hcode].
Qed.

Lemma tap_frame_witness :
  rows (connect Sample.table) !! 2 = Some Sample.bob ∧
  is_tapped (fst (handle_tap 2 2000 (connect Sample.table))) ∧
  rows (snd (handle_tap 2 2000 (connect Sample.table))) !! 3
    = Some Sample.capped.
Proof.
  assert (Hr : is_tapped (fst (handle_tap 2 2000 (connect Sample.table))))
    by (eexists; reflexivity).
  split; [reflexivity|]. split; [exact Hr|].
  destruct (proj2 (tap_frame (connect Sample.table) 2 2000 Sample.bob
                     eq_refl Hr 3) Sample.capped eq_refl)
    as (b' & Hb' & _ & _ & _ & _ & _ & _ & _ & _ & Hsame).
  rewrite Hb'. f_equal. apply Hsame; [discriminate|].
  intros (code & Hc & Hrc). discriminate.
Defined.

(** * Registration *)

(** The range test of the key column, as a proposition. *)
Lemma int4b_spec (z : Z) : int4b z = true ↔ int4 z.
Proof.
  unfold int4b, int4. rewrite andb_true_iff, Z.leb_le, Z.ltb_lt. reflexivity.
Qed.

(** [skip] with a key in the range of [user_id]: the insert and its
    commit. *)
Lemma skip_in_range (c : conn) (uid db_now : Z) :
  int4 uid →
  skip uid db_now c
  = (Skipped,
     commit (execute (λ _, match rows c !! uid with
                           | Some _ => rows c
                           | None => <[uid := default_row db_now BONUS_TOKENS]>
                                       (rows c)
                           end) c)).
Proof.
  intros Hr. apply int4b_spec in Hr.
  unfold skip, sql_insert_user. rewrite Hr. reflexivity.
Qed.

(** [skip] with a key out of the range of [user_id]: the exception of the
    [INSERT] ends the handler; nothing is written, committed or
    replied. *)
Lemma skip_out_of_range (c : conn) (uid db_now : Z) :
  ¬ int4 uid → skip uid db_now c = (Raised NumericValueOutOfRange, c).
Proof.
  intros Hr. unfold skip, sql_insert_user.
  destruct (int4b uid) eqn:E; [|reflexivity].
  exfalso. apply Hr. apply int4b_spec. exact E.
Qed.

Lemma skip_cases (c : conn) (uid db_now : Z) :
  (int4 uid ∧
   skip uid db_now c
   = (Skipped,
      commit (execute (λ _, match rows c !! uid with
                            | Some _ => rows c
                            | None => <[uid := default_row db_now BONUS_TOKENS]>
                                        (rows c)
                            end) c))) ∨
  (¬ int4 uid ∧ skip uid db_now c = (Raised NumericValueOutOfRange, c)).
Proof.
  destruct (int4b uid) eqn:E.
  - left. apply int4b_spec in E. split; [exact E|]. apply skip_in_range, E.
  - right. assert (Hr : ¬ int4 uid).
    { intros H. apply int4b_spec in H. congruence. }
    split; [exact Hr|]. apply skip_out_of_range, Hr.
Qed.

(** Runs, one update at a time. *)
Lemma handle_all_cons (isAddress : string -> bool) (r : request)
    (rs : list request) (c : conn) :
  handle_all isAddress (r :: rs) c
  = if raised (fst (dispatch isAddress r c))
    then snd (dispatch isAddress r c)
    else handle_all isAddress rs (snd (dispatch isAddress r c)).
Proof.
  cbn [handle_all]. destruct (dispatch isAddress r c). reflexivity.
Qed.

Lemma successful_taps_cons (isAddress : string -> bool) (uid : Z)
    (r : request) (rs : list request) (c : conn) :
  successful_taps isAddress uid (r :: rs) c
  = ((if is_own_tap uid r c then 1 else 0)
     + (if raised (fst (dispatch isAddress r c)) then 0
        else successful_taps isAddress uid rs
               (snd (dispatch isAddress r c))))%nat.
Proof.
  cbn [successful_taps]. destruct (dispatch isAddress r c). reflexivity.
Qed.

Lemma credits_received_cons (isAddress : string -> bool) (uid : Z)
    (r : request) (rs : list request) (c : conn) :
  credits_received isAddress uid (r :: rs) c
  = credit_received uid r c
    + (if raised (fst (dispatch isAddress r c)) then 0
       else credits_received isAddress uid rs
              (snd (dispatch isAddress r c))).
Proof.
  cbn [credits_received]. destruct (dispatch isAddress r c). reflexivity.
Qed.

(** A handler that raises has changed nothing. *)
Lemma dispatch_raised (isAddress : string -> bool) (r : request) (c : conn) :
  raised (fst (dispatch isAddress r c)) = true →
  snd (dispatch isAddress r c) = c ∧
  ∃ uid db_now, r = OnSkip uid db_now ∧ ¬ int4 uid.
Proof.
  destruct r as [uid db_now|uid text|uid|uid now]; cbn [dispatch].
  - destruct (skip_cases c uid db_now) as [[Hr ->]|[Hr ->]];
      cbn [fst snd raised]; [discriminate|].
    intros _. split; [reflexivity|]. exists uid, db_now. done.
  - unfold handle_wallet_address.
    destruct (negb (isAddress text)); [discriminate|].
    destruct (sql_update_wallet uid text (rows c)); discriminate.
  - unfold view_dashboard.
    destruct (select_dashboard uid (rows c)); discriminate.
  - unfold handle_tap, tap_after_fetch.
    destruct (select_tap_state uid (rows c)) as [[[t ts] m]|]; [|discriminate].
    destruct (eligible t ts now); discriminate.
Qed.

(** For a [user_id] in the range of the key column, [skip] for a user
    without a row adds one row and changes no other: the new row has
    [token_balance = BONUS_TOKENS = 500000],
    [mining_power = INITIAL_MINING_POWER = 100] and no wallet address.
    For a user who has a row it replies as before, raises nothing and
    leaves the table as it was; so a second [skip] changes nothing. *)
Lemma skip_registers_in_range (c : conn) (uid db_now : Z) :
  int4 uid →
  fst (skip uid db_now c) = Skipped ∧
  (rows c !! uid = None →
     (∃ a, rows (snd (skip uid db_now c)) !! uid = Some a ∧
           token_balance a = BONUS_TOKENS ∧ BONUS_TOKENS = 500000 ∧
           mining_power a = INITIAL_MINING_POWER ∧
           INITIAL_MINING_POWER = 100 ∧
           wallet_address a = None) ∧
     (∀ k, k ≠ uid → rows (snd (skip uid db_now c)) !! k = rows c !! k) ∧
     size (rows (snd (skip uid db_now c))) = S (size (rows c))) ∧
  (is_Some (rows c !! uid) → rows (snd (skip uid db_now c)) = rows c) ∧
  (∀ t, rows (snd (skip uid t (snd (skip uid db_now c))))
        = rows (snd (skip uid db_now c))).
Proof.
  intros Hr. rewrite (skip_in_range _ _ _ Hr).
  cbn [fst snd]. split; [reflexivity|]. split; [|split].
  - intros Hnone. cbn [commit execute rows]. rewrite Hnone. split; [|split].
    + exists (default_row db_now BONUS_TOKENS).
      rewrite lookup_insert_eq. repeat split.
    + intros k Hk. rewrite lookup_insert_ne by done. reflexivity.
    + apply map_size_insert_None. exact Hnone.
  - intros [a Ha]. cbn [commit execute rows]. rewrite Ha. reflexivity.
  - intros t. rewrite (skip_in_range _ _ _ Hr).
    cbn [snd commit execute rows].
    destruct (rows c !! uid) as [a|] eqn:Ha.
    + rewrite Ha. reflexivity.
    + rewrite lookup_insert_eq. reflexivity.
Qed.

(** C6, at the input where the code departs from it.  User 5000000000
    has no row.  [user_id] is a [SERIAL] column and the id does not fit
    its 32 bits: the [INSERT] of [skip] is refused, the handler ends in
    [NumericValueOutOfRange] before its commit and its reply, and the
    user has no row afterwards. *)
Theorem skip_user_id_out_of_range :
  let c := connect Sample.table in
  rows c !! 5000000000 = None ∧
  skip 5000000000 50 c = (Raised NumericValueOutOfRange, c) ∧
  rows (snd (skip 5000000000 50 c)) !! 5000000000 = None ∧
  commits (snd (skip 5000000000 50 c)) = commits c.
Proof.
  cbv zeta.
  assert (Hr : ¬ int4 5000000000) by (unfold int4; lia).
  rewrite (skip_out_of_range _ _ _ Hr).
  repeat split.
Qed.

(** * Wallet binding *)

Lemma wallet_taken_spec (uid : Z) (w : string) (s : store) :
  wallet_taken uid w s = true ↔
  ∃ k b, s !! k = Some b ∧ k ≠ uid ∧ wallet_address b = Some w.
Proof.
  unfold wallet_taken. rewrite bool_decide_eq_true.
  apply map_Exists_lookup.
Qed.

Lemma rollback_clean (c : conn) : clean c → rollback c = c.
Proof.
  unfold clean, rollback. destruct c as [s cs]. cbn [rows commits].
  destruct cs as [|s' cs]; [discriminate|].
  cbn [head]. intros [= ->]. reflexivity.
Qed.

Section WalletFacts.

Variable isAddress : string -> bool.

(** An address held by another account is refused and the connection is
    left as it was. *)
Lemma wallet_duplicate_rejected (c : conn) (uidA uidB : Z) (text : string)
    (a b : account) :
  clean c → isAddress text = true →
  rows c !! uidA = Some a → rows c !! uidB = Some b → uidB ≠ uidA →
  wallet_address b = Some text →
  handle_wallet_address isAddress uidA text c = (DuplicateWallet, c).
Proof.
  intros Hclean Hvalid Ha Hb Hne Hw.
  unfold handle_wallet_address, sql_update_wallet.
  rewrite Hvalid, Ha. cbn [negb].
  assert (Ht : wallet_taken uidA text (rows c) = true).
  { apply wallet_taken_spec. exists uidB, b. done. }
  rewrite Ht, (rollback_clean c Hclean). reflexivity.
Qed.

(** A successful binding writes [wallet_address] in the row of the user
    and nothing else. *)
Lemma wallet_bind_success (c : conn) (uid : Z) (text : string) (a : account) :
  rows c !! uid = Some a →
  fst (handle_wallet_address isAddress uid text c) = WalletBound →
  rows (snd (handle_wallet_address isAddress uid text c))
    = <[uid := set_wallet text a]> (rows c) ∧
  wallet_address (set_wallet text a) = Some text ∧
  token_balance (set_wallet text a) = token_balance a ∧
  set_wallet text a
    = {| wallet_address := Some text; taps := taps a;
         mining_power := mining_power a;
         referral_code := referral_code a; referred_by := referred_by a;
         referral_count := referral_count a;
         tap_timestamp := tap_timestamp a;
         joined_telegram := joined_telegram a;
         followed_twitter := followed_twitter a;
         token_balance := token_balance a |}.
Proof.
  intros Ha. unfold handle_wallet_address, sql_update_wallet. rewrite Ha.
  destruct (isAddress text); cbn [negb fst snd]; [|discriminate].
  destruct (wallet_taken uid text (rows c)); cbn [fst snd]; [discriminate|].
  intros _. repeat split.
Qed.

(** With no row for the user the [UPDATE] matches nothing, nothing is
    raised, and the handler reports success. *)
Lemma wallet_bind_no_account (c : conn) (uid : Z) (text : string) :
  isAddress text = true → rows c !! uid = None →
  fst (handle_wallet_address isAddress uid text c) = WalletBound ∧
  rows (snd (handle_wallet_address isAddress uid text c)) = rows c.
Proof.
  intros Hvalid Hnone. unfold handle_wallet_address, sql_update_wallet.
  rewrite Hvalid, Hnone. split; reflexivity.
Qed.

End WalletFacts.

(** C7, at the input where the code departs from it.  User 9 has no row;
    a well-formed address sent by that user is answered with "Wallet
    connected successfully!" and the table is left as it was. *)
Theorem wallet_bind_without_account :
  let c := connect Sample.table in
  let text := "0x52908400098527886E0F7030069857D2E4169EE7" in
  rows c !! 9 = None ∧
  fst (handle_wallet_address Sample.hex_address 9 text c) = WalletBound ∧
  rows (snd (handle_wallet_address Sample.hex_address 9 text c)) = Sample.table.
Proof.
  cbv zeta. split; [reflexivity|].
  apply wallet_bind_no_account; reflexivity.
Qed.

(** * Balances never go down *)

Lemma apply_credit_balance (tapper b : account) :
  0 ≤ mining_power tapper →
  token_balance b ≤ token_balance (apply_credit tapper b).
Proof.
  intros Hm. unfold apply_credit.
  destruct (referrer_of tapper) as [code|]; [|lia].
  case_decide; [|lia]. cbn [credit_bonus set_balance token_balance].
  apply NumericFacts.numeric_to_int8_add_nonneg.
  apply NumericFacts.referrer_bonus_nonneg. unfold new_tokens, TAP_REWARD. lia.
Qed.

Lemma commit_clean (c : conn) : clean (commit c).
Proof. reflexivity. Qed.

Lemma referral_commit_clean (uid tokens : Z) (c : conn) :
  clean c → clean (referral_commit uid tokens c).
Proof.
  intros Hc. unfold referral_commit.
  destruct (select_referred_by uid (rows c)) as [[code|]|]; try exact Hc.
  destruct (String.eqb code ""); [exact Hc|apply commit_clean].
Qed.

Section Monotone.

Variable isAddress : string -> bool.

(** One update: the connection stays clean, every row keeps its mining
    power and no balance goes down. *)
Lemma dispatch_step (r : request) (c : conn) :
  clean c → mining_power_ok (rows c) →
  clean (snd (dispatch isAddress r c)) ∧
  mining_power_ok (rows (snd (dispatch isAddress r c))) ∧
  (∀ k b, rows c !! k = Some b →
     ∃ b', rows (snd (dispatch isAddress r c)) !! k = Some b' ∧
           token_balance b ≤ token_balance b').
Proof.
  intros Hclean Hmp.
  assert (Hid : clean c ∧ mining_power_ok (rows c) ∧
                ∀ k b, rows c !! k = Some b →
                  ∃ b', rows c !! k = Some b' ∧
                        token_balance b ≤ token_balance b').
  { split; [exact Hclean|]. split; [exact Hmp|].
    intros k b Hk. exists b. split; [exact Hk|lia]. }
  destruct r as [uid db_now|uid text|uid|uid now]; cbn [dispatch].
  - (* skip *)
    destruct (skip_cases c uid db_now) as [[Hr ->]|[Hr ->]]; [|exact Hid].
    cbn [snd commit execute rows].
    split; [apply commit_clean|].
    destruct (rows c !! uid) as [a|] eqn:Ha; [exact (proj2 Hid)|].
    split.
    + intros k b. rewrite lookup_insert. case_decide.
      * intros [= <-]. cbn. unfold INITIAL_MINING_POWER. lia.
      * apply Hmp.
    + intros k b Hk. exists b. split; [|lia].
      rewrite lookup_insert_ne by congruence. exact Hk.
  - (* wallet text *)
    unfold handle_wallet_address, sql_update_wallet.
    destruct (isAddress text); cbn [negb]; [|exact Hid].
    destruct (rows c !! uid) as [a|] eqn:Ha.
    + destruct (wallet_taken uid text (rows c)).
      * cbn [snd]. rewrite (rollback_clean c Hclean). exact Hid.
      * cbn [snd commit execute rows]. split; [apply commit_clean|]. split.
        -- intros k b. rewrite lookup_insert. case_decide.
           ++ intros [= <-]. apply (Hmp uid a Ha).
           ++ apply Hmp.
        -- intros k b Hk. rewrite lookup_insert. case_decide.
           ++ subst k. exists (set_wallet text a).
              split; [reflexivity|]. replace b with a by congruence.
              cbn. lia.
           ++ exists b. split; [exact Hk|lia].
    + cbn [snd commit execute rows]. split; [apply commit_clean|].
      exact (proj2 Hid).
  - (* dashboard *)
    unfold view_dashboard. destruct (select_dashboard uid (rows c)); exact Hid.
  - (* tap *)
    destruct (rows c !! uid) as [a|] eqn:Ha.
    2: { rewrite (handle_tap_unregistered _ _ _ Ha). exact Hid. }
    destruct (eligible (taps a) (tap_timestamp a) now) eqn:E.
    2: { rewrite (handle_tap_registered _ _ _ _ Ha), E. exact Hid. }
    assert (Hok : tap_allowed a now) by (apply eligible_spec; exact E).
    assert (Hma : 0 ≤ mining_power a).
    { pose proof (Hmp uid a Ha). unfold INITIAL_MINING_POWER in *. lia. }
    split; [|split].
    + rewrite (handle_tap_registered _ _ _ _ Ha), E. cbn [snd].
      apply referral_commit_clean, commit_clean.
    + intros k b'. rewrite (rows_handle_tap _ _ _ _ _ Ha Hok).
      case_decide.
      * intros [= <-]. rewrite apply_credit_frame. apply (Hmp uid a Ha).
      * destruct (rows c !! k) as [b|] eqn:Hk; [|discriminate].
        intros [= <-]. rewrite apply_credit_frame. apply (Hmp k b Hk).
    + intros k b Hk. rewrite (rows_handle_tap _ _ _ _ _ Ha Hok).
      case_decide.
      * subst k. replace b with a by congruence.
        exists (apply_credit a (after_tap now a)). split; [reflexivity|].
        pose proof (apply_credit_balance a (after_tap now a) Hma) as Hle.
        cbn [after_tap set_tap token_balance] in Hle.
        unfold new_tokens, TAP_REWARD in Hle. lia.
      * rewrite Hk. exists (apply_credit a b). split; [reflexivity|].
        apply apply_credit_balance. exact Hma.
Qed.

Lemma handle_all_step (rs : list request) :
  ∀ c, clean c → mining_power_ok (rows c) →
    ∀ k b, rows c !! k = Some b →
      ∃ b', rows (handle_all isAddress rs c) !! k = Some b' ∧
            token_balance b ≤ token_balance b'.
Proof.
  induction rs as [|r rs IH]; intros c Hclean Hmp k b Hk.
  - exists b. split; [exact Hk|lia].
  - rewrite handle_all_cons.
    destruct (dispatch_step r c Hclean Hmp) as (Hclean' & Hmp' & Hstep).
    destruct (Hstep k b Hk) as (b1 & Hk1 & Hle1).
    destruct (raised (fst (dispatch isAddress r c))).
    { exists b1. split; [exact Hk1|exact Hle1]. }
    destruct (IH _ Hclean' Hmp' k b1 Hk1) as (b' & Hk' & Hle').
    exists b'. split; [exact Hk'|lia].
Qed.

Lemma handle_all_invariant (rs : list request) :
  ∀ c, clean c → mining_power_ok (rows c) →
    clean (handle_all isAddress rs c) ∧
    mining_power_ok (rows (handle_all isAddress rs c)).
Proof.
  induction rs as [|r rs IH]; intros c Hclean Hmp; [done|].
  rewrite handle_all_cons.
  destruct (dispatch_step r c Hclean Hmp) as (Hclean' & Hmp' & _).
  destruct (raised (fst (dispatch isAddress r c))); [done|].
  apply IH; assumption.
Qed.

(** Every table the handlers build from an empty one satisfies the
    mining power bound. *)
Lemma reachable_mining_power (rs : list request) :
  mining_power_ok (rows (handle_all isAddress rs (connect ∅))).
Proof.
  apply handle_all_invariant; [reflexivity|].
  intros k b Hk. cbn [connect rows] in Hk.
  rewrite lookup_empty in Hk. discriminate.
Qed.

End Monotone.

(** C9. Starting from a table in which every account has
    [mining_power >= 100], no sequence of updates handled by [skip],
    [handle_wallet_address], [view_dashboard] and [handle_tap] (its
    referral credit included) lowers the [token_balance] of any account:
    the account is still there and its balance is at least what it was. *)
Theorem balance_never_decreases (isAddress : string -> bool)
    (rs : list request) (s : store) (uid : Z) (a : account) :
  (∀ k b, s !! k = Some b → mining_power b >= 100) →
  s !! uid = Some a →
  ∃ a', rows (handle_all isAddress rs (connect s)) !! uid = Some a' ∧
        token_balance a ≤ token_balance a'.
Proof.
  intros Hmp Ha.
  apply (handle_all_step isAddress rs (connect s)); [reflexivity| |exact Ha].
  intros k b Hk. pose proof (Hmp k b Hk). unfold INITIAL_MINING_POWER. lia.
Qed.

Lemma balance_never_decreases_witness :
  (∀ k b, Sample.table !! k = Some b → mining_power b >= 100) ∧
  Sample.table !! 1 = Some Sample.alice ∧
  ∃ a', rows (handle_all Sample.hex_address
                [OnTap 2 2000; OnSkip 9 2500; OnWalletText 3 "0x52908400098527886E0F7030069857D2E4169EE7";
                 OnDashboard 1; OnTap 3 3000]
                (connect Sample.table)) !! 1 = Some a' ∧
        token_balance Sample.alice ≤ token_balance a'.
Proof.
  assert (Hmp : ∀ k b, Sample.table !! k = Some b → mining_power b >= 100).
  { intros k b. unfold Sample.table.
    rewrite !lookup_insert. repeat case_decide; try discriminate.
    all: intros [= <-]; cbn; lia. }
  split; [exact Hmp|]. split; [reflexivity|].
  apply (balance_never_decreases Sample.hex_address _ Sample.table 1
           Sample.alice Hmp eq_refl).
Defined.

(** * Rewards over a run *)

(** What the referral statement adds to a row. *)
Lemma apply_credit_exact (tapper b : account) :
  int4 (mining_power tapper) →
  token_balance (apply_credit tapper b) =
    token_balance b
    + match referrer_of tapper with
      | Some code =>
          if decide (referral_code b = Some code)
          then new_tokens (mining_power tapper) / 10 else 0
      | None => 0
      end.
Proof.
  intros Hm. unfold apply_credit.
  destruct (referrer_of tapper) as [code|]; [|lia].
  case_decide; [|lia].
  cbn [credit_bonus set_balance token_balance]. unfold new_tokens, TAP_REWARD.
  rewrite (NumericFacts.bonus_credit_exact _ _ Hm).
  assert (Hd : 1000 * mining_power tapper / 10 = 100 * mining_power tapper)
    by (symmetry; apply Z.div_unique_exact; lia).
  rewrite Hd. reflexivity.
Qed.

Section Accounting.

Variable isAddress : string -> bool.

(** One update, seen from the row of [uid]: the balance grows by the
    reward when the update is a successful tap of [uid], and by the
    referral credit the update brings; the mining power stays. *)
Lemma dispatch_account (r : request) (c : conn) (uid : Z) (a : account) :
  clean c → int4_ok (rows c) → rows c !! uid = Some a →
  clean (snd (dispatch isAddress r c)) ∧
  int4_ok (rows (snd (dispatch isAddress r c))) ∧
  ∃ a', rows (snd (dispatch isAddress r c)) !! uid = Some a' ∧
        mining_power a' = mining_power a ∧
        token_balance a' =
          token_balance a
          + (if is_own_tap uid r c then TAP_REWARD * mining_power a else 0)
          + credit_received uid r c.
Proof.
  intros Hclean Hint Ha.
  assert (Hid : clean c ∧ int4_ok (rows c) ∧
                ∃ a', rows c !! uid = Some a' ∧
                      mining_power a' = mining_power a ∧
                      token_balance a' = token_balance a + 0 + 0).
  { split; [exact Hclean|]. split; [exact Hint|].
    exists a. split; [exact Ha|]. split; [reflexivity|lia]. }
  destruct r as [v db_now|v text|v|v now];
    cbn [dispatch is_own_tap credit_received].
  - (* skip *)
    destruct (skip_cases c v db_now) as [[Hr ->]|[Hr ->]]; [|exact Hid].
    cbn [snd commit execute rows].
    split; [apply commit_clean|].
    destruct (rows c !! v) as [av|] eqn:Hv; [exact (proj2 Hid)|].
    split.
    + intros k b. rewrite lookup_insert. case_decide.
      * intros [= <-]. unfold int4. cbn. lia.
      * apply Hint.
    + exists a. rewrite lookup_insert_ne by congruence.
      split; [exact Ha|]. split; [reflexivity|lia].
  - (* wallet text *)
    unfold handle_wallet_address, sql_update_wallet.
    destruct (isAddress text); cbn [negb]; [|exact Hid].
    destruct (rows c !! v) as [av|] eqn:Hv.
    + destruct (wallet_taken v text (rows c)).
      * cbn [snd]. rewrite (rollback_clean c Hclean). exact Hid.
      * cbn [snd commit execute rows]. split; [apply commit_clean|]. split.
        -- intros k b. rewrite lookup_insert. case_decide.
           ++ intros [= <-]. apply (Hint v av Hv).
           ++ apply Hint.
        -- rewrite lookup_insert. case_decide.
           ++ subst v. replace av with a by congruence.
              exists (set_wallet text a).
              split; [reflexivity|]. split; [reflexivity|]. cbn. lia.
           ++ exists a. split; [exact Ha|]. split; [reflexivity|lia].
    + cbn [snd commit execute rows]. split; [apply commit_clean|].
      exact (proj2 Hid).
  - (* dashboard *)
    unfold view_dashboard. destruct (select_dashboard v (rows c)); exact Hid.
  - (* tap *)
    destruct (rows c !! v) as [av|] eqn:Hv.
    2: { rewrite (handle_tap_unregistered _ _ _ Hv). cbn [fst snd].
         rewrite andb_false_r. exact Hid. }
    destruct (eligible (taps av) (tap_timestamp av) now) eqn:E.
    2: { rewrite (handle_tap_registered _ _ _ _ Hv), E. cbn [fst snd].
         rewrite andb_false_r. exact Hid. }
    assert (Hok : tap_allowed av now) by (apply eligible_spec; exact E).
    assert (Hmv : int4 (mining_power av)) by apply (Hint v av Hv).
    split; [|split].
    + rewrite (handle_tap_registered _ _ _ _ Hv), E. cbn [snd].
      apply referral_commit_clean, commit_clean.
    + intros k b'. rewrite (rows_handle_tap _ _ _ _ _ Hv Hok).
      case_decide.
      * intros [= <-]. rewrite apply_credit_frame. exact Hmv.
      * destruct (rows c !! k) as [b|] eqn:Hk; [|discriminate].
        intros [= <-]. rewrite apply_credit_frame. apply (Hint k b Hk).
    + rewrite (rows_handle_tap _ _ _ _ _ Hv Hok).
      rewrite (handle_tap_registered _ _ _ _ Hv), E. cbn [fst].
      rewrite Ha, andb_true_r. case_decide as Hvu.
      * subst v. assert (av = a) by congruence. subst av.
        exists (apply_credit a (after_tap now a)).
        split; [reflexivity|]. split; [rewrite apply_credit_frame; reflexivity|].
        rewrite bool_decide_eq_true_2 by reflexivity.
        rewrite (apply_credit_exact _ _ Hmv).
        cbn [after_tap set_tap token_balance referral_code].
        unfold new_tokens. lia.
      * exists (apply_credit av a).
        split; [reflexivity|]. split; [rewrite apply_credit_frame; reflexivity|].
        rewrite bool_decide_eq_false_2 by exact Hvu.
        rewrite (apply_credit_exact _ _ Hmv). lia.
Qed.

Lemma run_account (rs : list request) :
  ∀ (c : conn) (uid : Z) (a : account),
    clean c → int4_ok (rows c) → rows c !! uid = Some a →
    ∃ a', rows (handle_all isAddress rs c) !! uid = Some a' ∧
          mining_power a' = mining_power a ∧
          token_balance a' =
            token_balance a
            + Z.of_nat (successful_taps isAddress uid rs c)
              * (TAP_REWARD * mining_power a)
            + credits_received isAddress uid rs c.
Proof.
  induction rs as [|r rs IH]; intros c uid a Hclean Hint Ha.
  - exists a. cbn [handle_all successful_taps credits_received].
    split; [exact Ha|]. split; [reflexivity|]. change (Z.of_nat 0) with 0. lia.
  - rewrite handle_all_cons, successful_taps_cons, credits_received_cons.
    destruct (dispatch_account r c uid a Hclean Hint Ha)
      as (Hclean' & Hint' & a1 & Ha1 & Hm1 & Hb1).
    destruct (raised (fst (dispatch isAddress r c))).
    { exists a1. split; [exact Ha1|]. split; [exact Hm1|].
      rewrite Hb1, Nat.add_0_r.
      destruct (is_own_tap uid r c); [change (Z.of_nat 1) with 1|
                                      change (Z.of_nat 0) with 0]; lia. }
    destruct (IH _ uid a1 Hclean' Hint' Ha1) as (a' & Ha' & Hm' & Hb').
    exists a'. split; [exact Ha'|]. split; [congruence|].
    rewrite Hb', Hb1, Hm1, Nat2Z.inj_add.
    destruct (is_own_tap uid r c); [change (Z.of_nat 1) with 1|
                                    change (Z.of_nat 0) with 0]; lia.
Qed.

End Accounting.

(** C3. A successful tap by an account with mining power [m] replies with
    the reward [1000 * m], adds exactly that reward to the account's
    [token_balance] in the tap's own update and sets [tap_timestamp] to
    the current time.  Hence over any sequence of updates in which the
    account taps successfully [N] times, its mining power stays [m] and
    its balance grows by [N * 1000 * m] plus the referral credits it
    receives. *)
Theorem tap_reward_accrual (isAddress : string -> bool) (c : conn)
    (uid : Z) (a : account) :
  clean c → (∀ k b, rows c !! k = Some b → int4 (mining_power b)) →
  rows c !! uid = Some a →
  (∀ now, is_tapped (fst (handle_tap uid now c)) →
     fst (handle_tap uid now c) = Tapped (1000 * mining_power a) ∧
     ∃ a1, rows (tap_commit uid now (taps a) (mining_power a) c) !! uid
             = Some a1 ∧
           token_balance a1 = token_balance a + 1000 * mining_power a ∧
           tap_timestamp a1 = now) ∧
  (∀ rs,
     ∃ a', rows (handle_all isAddress rs c) !! uid = Some a' ∧
           mining_power a' = mining_power a ∧
           token_balance a' =
             token_balance a
             + Z.of_nat (successful_taps isAddress uid rs c)
               * 1000 * mining_power a
             + credits_received isAddress uid rs c).
Proof.
  intros Hclean Hint Ha. split.
  - intros now Hr.
    destruct (successful_tap_row c uid now a Ha (Hint uid a Ha) Hr)
      as (H1 & H2 & _).
    split; assumption.
  - intros rs.
    destruct (run_account isAddress rs c uid a Hclean Hint Ha)
      as (a' & Ha' & Hm' & Hb').
    exists a'. split; [exact Ha'|]. split; [exact Hm'|].
    rewrite Hb'. unfold TAP_REWARD. lia.
Qed.

Lemma tap_reward_accrual_witness :
  let rs := [OnTap 2 2000; OnTap 1 2500; OnSkip 9 2600; OnTap 2 3000;
             OnTap 3 3500; OnTap 2 4000] in
  let c := connect Sample.table in
  clean c ∧
  (∀ k b, rows c !! k = Some b → int4 (mining_power b)) ∧
  rows c !! 1 = Some Sample.alice ∧
  successful_taps Sample.hex_address 1 rs c = 1%nat ∧
  credits_received Sample.hex_address 1 rs c = 3 * 25000 ∧
  ∃ a', rows (handle_all Sample.hex_address rs c) !! 1 = Some a' ∧
        token_balance a'
          = token_balance Sample.alice + 1 * 1000 * 100 + 3 * 25000.
Proof.
  cbv zeta.
  assert (Hint : ∀ k b, rows (connect Sample.table) !! k = Some b →
                        int4 (mining_power b)).
  { intros k b. cbn [connect rows]. unfold Sample.table.
    rewrite !lookup_insert. repeat case_decide; try discriminate.
    all: intros [= <-]; unfold int4; cbn; lia. }
  split; [reflexivity|]. split; [exact Hint|]. split; [reflexivity|].
  split; [vm_compute; reflexivity|]. split; [vm_compute; reflexivity|].
  destruct (proj2 (tap_reward_accrual Sample.hex_address
                     (connect Sample.table) 1 Sample.alice eq_refl Hint eq_refl)
              [OnTap 2 2000; OnTap 1 2500; OnSkip 9 2600; OnTap 2 3000;
               OnTap 3 3500; OnTap 2 4000])
    as (a' & Ha' & _ & Hb').
  exists a'. split; [exact Ha'|]. rewrite Hb'.
  vm_compute. reflexivity.
Defined.

(** * Scenarios *)

(** A user registers through [skip] and holds 500000 tokens with no
    wallet. *)
Example scenario_skip :
  rows (snd (skip 7 0 (connect ∅))) !! 7
  = Some (default_row 0 500000) ∧
  wallet_address (default_row 0 500000) = None.
Proof. split; reflexivity. Qed.

(** The fresh account taps ten times within 24 hours and earns
    [10 * 1000 * 100]; the eleventh tap in the same window is rejected
    and changes nothing. *)
Example scenario_ten_taps :
  let c := snd (skip 7 0 (connect ∅)) in
  let ten := tap_sequence 7 [1; 2; 3; 4; 5; 6; 7; 8; 9; 10] c in
  fst ten = replicate 10 (Tapped 100000) ∧
  token_balance <$> rows (snd ten) !! 7 = Some (500000 + 1000000) ∧
  taps <$> rows (snd ten) !! 7 = Some 10 ∧
  handle_tap 7 11 (snd ten) = (TapRejected DailyLimitReached, snd ten).
Proof. vm_compute. repeat split. Qed.

(** * Taps of one account that arrive together *)

(** The tapping row once an allowed tap has returned: the counter and
    the timestamp of lines 156 and 159, whatever the referral step
    credits. *)
Lemma tapped_row (c : conn) (uid now : Z) (a : account) :
  rows c !! uid = Some a → tap_allowed a now →
  handle_tap uid now c
    = (Tapped (TAP_REWARD * mining_power a), snd (handle_tap uid now c)) ∧
  rows (snd (handle_tap uid now c)) !! uid
    = Some (apply_credit a (after_tap now a)) ∧
  taps (apply_credit a (after_tap now a)) = new_taps (taps a) ∧
  tap_timestamp (apply_credit a (after_tap now a)) = now.
Proof.
  intros Ha Hok. split; [|split; [|split]].
  - rewrite (handle_tap_registered _ _ _ _ Ha).
    apply eligible_spec in Hok. rewrite Hok. reflexivity.
  - rewrite (rows_handle_tap _ _ _ _ uid Ha Hok).
    case_decide; [reflexivity|done].
  - rewrite apply_credit_frame. reflexivity.
  - rewrite apply_credit_frame. reflexivity.
Qed.

(** C8. [main] registers [handle_tap] without [run_async]: two tap
    requests for the same account that arrive together are handled one
    after the other, in the order the dispatcher takes them from its
    queue; [now1] and [now2] are the times the two calls read.  For an
    account with [taps = MAX_TAPS_PER_DAY - 1] the call handled first
    succeeds, and the other succeeds only if it comes after the window
    that the first has started has rolled over, more than 24 hours
    later.  Within the window it is rejected and changes nothing:
    exactly one of the two succeeds, the counter ends at the cap and the
    balance has grown by one reward (and by the referral credit on it,
    should the account carry the code it was referred by). *)
Theorem concurrent_taps_one_succeeds (isAddress : string -> bool) (c : conn)
    (uid now1 now2 : Z) (a : account) :
  rows c !! uid = Some a → taps a = MAX_TAPS_PER_DAY - 1 →
  let first := handle_tap uid now1 c in
  let second := handle_tap uid now2 (snd first) in
  tap_sequence uid [now1; now2] c = ([fst first; fst second], snd second) ∧
  fst first = Tapped (TAP_REWARD * mining_power a) ∧
  (is_tapped (fst second) ↔ now2 - now1 > ONE_DAY) ∧
  (now2 - now1 ≤ ONE_DAY →
     second = (TapRejected DailyLimitReached, snd first) ∧
     successful_taps isAddress uid [OnTap uid now1; OnTap uid now2] c
       = 1%nat ∧
     ∃ a', rows (snd second) !! uid = Some a' ∧
           taps a' = MAX_TAPS_PER_DAY ∧
           (int4 (mining_power a) →
            token_balance a'
              = token_balance a + TAP_REWARD * mining_power a
                + own_credit a)).
Proof.
  intros Ha Ht. cbv zeta.
  assert (Hok : tap_allowed a now1) by (left; rewrite Ht; reflexivity).
  destruct (tapped_row c uid now1 a Ha Hok) as (H1 & Hrow & Htaps & Hts).
  assert (Hcap : taps (apply_credit a (after_tap now1 a)) = MAX_TAPS_PER_DAY).
  { rewrite Htaps. unfold new_taps. rewrite Ht. reflexivity. }
  assert (Hiff : is_tapped (fst (handle_tap uid now2
                                   (snd (handle_tap uid now1 c))))
                 ↔ now2 - now1 > ONE_DAY).
  { rewrite (tapped_iff_allowed _ _ _ _ Hrow). unfold tap_allowed.
    rewrite Hcap, Hts. lia. }
  assert (Hrej : now2 - now1 ≤ ONE_DAY →
                 handle_tap uid now2 (snd (handle_tap uid now1 c))
                 = (TapRejected DailyLimitReached,
                    snd (handle_tap uid now1 c))).
  { intros Hw. rewrite (handle_tap_registered _ _ _ _ Hrow).
    assert (E : eligible (taps (apply_credit a (after_tap now1 a)))
                  (tap_timestamp (apply_credit a (after_tap now1 a))) now2
                = false).
    { rewrite Hcap, Hts. unfold eligible. apply orb_false_iff.
      split; [reflexivity|]. apply Z.ltb_ge. lia. }
    rewrite E. reflexivity. }
  split; [|split; [|split]].
  - cbn [tap_sequence].
    destruct (handle_tap uid now1 c) as [r1 c1]. cbn [fst snd].
    destruct (handle_tap uid now2 c1) as [r2 c2]. reflexivity.
  - rewrite H1. reflexivity.
  - exact Hiff.
  - intros Hw. split; [exact (Hrej Hw)|]. split.
    + rewrite successful_taps_cons. cbn [is_own_tap dispatch raised].
      rewrite H1. cbn [fst snd raised].
      rewrite bool_decide_eq_true_2 by reflexivity. cbn [andb].
      rewrite successful_taps_cons. cbn [is_own_tap dispatch].
      rewrite (Hrej Hw). cbn [fst snd raised successful_taps].
      rewrite andb_false_r. reflexivity.
    + rewrite (Hrej Hw). cbn [snd].
      exists (apply_credit a (after_tap now1 a)).
      split; [exact Hrow|]. split; [exact Hcap|].
      intros Hm. apply tapped_row_balance. exact Hm.
Qed.

Lemma concurrent_taps_one_succeeds_witness :
  let c := connect Sample.table in
  let first := handle_tap 4 100 c in
  let second := handle_tap 4 101 (snd first) in
  rows c !! 4 = Some Sample.almost ∧
  taps Sample.almost = MAX_TAPS_PER_DAY - 1 ∧
  int4 (mining_power Sample.almost) ∧
  101 - 100 ≤ ONE_DAY ∧
  fst first = Tapped 100000 ∧
  second = (TapRejected DailyLimitReached, snd first) ∧
  successful_taps Sample.hex_address 4 [OnTap 4 100; OnTap 4 101] c = 1%nat ∧
  ∃ a', rows (snd second) !! 4 = Some a' ∧
        taps a' = MAX_TAPS_PER_DAY ∧
        token_balance a' = 1400000 + 100000 + 0.
Proof.
  cbv zeta.
  assert (Hm : int4 (mining_power Sample.almost)) by (unfold int4; cbn; lia).
  assert (Hw : 101 - 100 ≤ ONE_DAY) by (unfold ONE_DAY; lia).
  destruct (concurrent_taps_one_succeeds Sample.hex_address
              (connect Sample.table) 4 100 101 Sample.almost
              eq_refl eq_refl) as (_ & Hfirst & _ & Hin).
  destruct (Hin Hw) as (Hsecond & Hcount & a' & Hrow & Htaps & Hbal).
  split; [reflexivity|]. split; [reflexivity|]. split; [exact Hm|].
  split; [exact Hw|]. split; [exact Hfirst|]. split; [exact Hsecond|].
  split; [exact Hcount|].
  exists a'. split; [exact Hrow|]. split; [exact Htaps|]. exact (Hbal Hm).
Defined.

(** * Tables along a run *)

(** The table after [handle_tap], row by row, whatever the outcome. *)
Lemma rows_handle_tap_any (uid now : Z) (c : conn) (k : Z) :
  rows (snd (handle_tap uid now c)) !! k =
    match rows c !! uid with
    | Some a =>
        if eligible (taps a) (tap_timestamp a) now
        then apply_credit a <$>
               (if decide (uid = k) then Some (after_tap now a)
                else rows c !! k)
        else rows c !! k
    | None => rows c !! k
    end.
Proof.
  destruct (rows c !! uid) as [a|] eqn:Ha.
  - destruct (eligible (taps a) (tap_timestamp a) now) eqn:E.
    + apply rows_handle_tap; [exact Ha|]. apply eligible_spec. exact E.
    + rewrite (handle_tap_registered _ _ _ _ Ha), E. reflexivity.
  - rewrite (handle_tap_unregistered _ _ _ Ha). reflexivity.
Qed.

Section Runs.

Variable isAddress : string -> bool.

Lemma dispatch_clean (r : request) (c : conn) :
  clean c → clean (snd (dispatch isAddress r c)).
Proof.
  intros Hclean. destruct r as [v t|v text|v|v now]; cbn [dispatch].
  - destruct (skip_cases c v t) as [[Hr ->]|[Hr ->]]; [|exact Hclean].
    apply commit_clean.
  - unfold handle_wallet_address.
    destruct (isAddress text); cbn [negb snd]; [|exact Hclean].
    destruct (sql_update_wallet v text (rows c)); cbn [snd].
    + apply commit_clean.
    + rewrite (rollback_clean c Hclean). exact Hclean.
  - unfold view_dashboard. destruct (select_dashboard v (rows c)); exact Hclean.
  - unfold handle_tap, tap_after_fetch.
    destruct (select_tap_state v (rows c)) as [[[t ts] m]|]; [|exact Hclean].
    destruct (eligible t ts now); [|exact Hclean].
    apply referral_commit_clean, commit_clean.
Qed.

(** What one update does to the row of [k]. *)
Lemma dispatch_row (r : request) (c : conn) (k : Z) :
  clean c →
  match rows c !! k with
  | None =>
      rows (snd (dispatch isAddress r c)) !! k = None
      ∨ ∃ t, r = OnSkip k t ∧ int4 k ∧
             rows (snd (dispatch isAddress r c)) !! k
               = Some (default_row t BONUS_TOKENS)
  | Some b =>
      rows (snd (dispatch isAddress r c)) !! k = Some b
      ∨ (∃ text, r = OnWalletText k text ∧
                 wallet_taken k text (rows c) = false ∧
                 rows (snd (dispatch isAddress r c)) !! k
                   = Some (set_wallet text b))
      ∨ (∃ v now av, r = OnTap v now ∧ rows c !! v = Some av ∧
                     tap_allowed av now ∧
                     rows (snd (dispatch isAddress r c)) !! k
                       = Some (apply_credit av
                                 (if decide (v = k) then after_tap now b
                                  else b)))
  end.
Proof.
  intros Hclean.
  assert (Hid : match rows c !! k with
                | None => rows c !! k = None
                | Some b => rows c !! k = Some b
                end) by (destruct (rows c !! k); reflexivity).
  destruct r as [v t|v text|v|v now]; cbn [dispatch].
  - destruct (skip_cases c v t) as [[Hr ->]|[Hr ->]].
    2: { cbn [snd]. destruct (rows c !! k); left; reflexivity. }
    cbn [snd commit execute rows].
    destruct (rows c !! v) as [av|] eqn:Hv.
    + destruct (rows c !! k); [left|left]; reflexivity.
    + rewrite lookup_insert. case_decide as Hvk.
      * subst v. rewrite Hv. right. eauto.
      * destruct (rows c !! k); left; reflexivity.
  - unfold handle_wallet_address, sql_update_wallet.
    destruct (isAddress text); cbn [negb snd].
    2: { destruct (rows c !! k); left; reflexivity. }
    destruct (rows c !! v) as [av|] eqn:Hv.
    + destruct (wallet_taken v text (rows c)) eqn:Ht; cbn [snd].
      * rewrite (rollback_clean c Hclean).
        destruct (rows c !! k); left; reflexivity.
      * cbn [commit execute rows]. rewrite lookup_insert.
        case_decide as Hvk.
        -- subst v. rewrite Hv. right. left. eauto.
        -- destruct (rows c !! k); left; reflexivity.
    + cbn [snd commit execute rows]. destruct (rows c !! k); left; reflexivity.
  - unfold view_dashboard.
    destruct (select_dashboard v (rows c)); cbn [snd];
      destruct (rows c !! k); left; reflexivity.
  - rewrite rows_handle_tap_any.
    destruct (rows c !! v) as [av|] eqn:Hv.
    2: { destruct (rows c !! k); left; reflexivity. }
    destruct (eligible (taps av) (tap_timestamp av) now) eqn:E.
    2: { destruct (rows c !! k); left; reflexivity. }
    assert (Hok : tap_allowed av now) by (apply eligible_spec; exact E).
    case_decide as Hvk.
    + subst v. rewrite Hv. right. right.
      exists k, now, av. rewrite decide_True by reflexivity. done.
    + destruct (rows c !! k) as [b|] eqn:Hk; [|left; reflexivity].
      right. right. exists v, now, av.
      rewrite decide_False by exact Hvk. done.
Qed.

(** An invariant of the table kept by every update is kept by every
    run. *)
Lemma run_invariant (P : store → Prop) :
  (∀ r c, clean c → P (rows c) → P (rows (snd (dispatch isAddress r c)))) →
  ∀ rs c, clean c → P (rows c) → P (rows (handle_all isAddress rs c)).
Proof.
  intros Hstep rs. induction rs as [|r rs IH]; intros c Hclean HP; [exact HP|].
  rewrite handle_all_cons.
  destruct (raised (fst (dispatch isAddress r c)));
    [apply Hstep; assumption|].
  apply IH; [apply dispatch_clean; exact Hclean|].
  apply Hstep; assumption.
Qed.

End Runs.

Lemma new_taps_range (t : Z) :
  0 ≤ t → 1 ≤ new_taps t ≤ MAX_TAPS_PER_DAY.
Proof.
  unfold new_taps, MAX_TAPS_PER_DAY. intros Ht.
  destruct (Z.ltb_spec t 10); lia.
Qed.

Lemma apply_credit_taps (tapper b : account) :
  taps (apply_credit tapper b) = taps b ∧
  tap_timestamp (apply_credit tapper b) = tap_timestamp b ∧
  wallet_address (apply_credit tapper b) = wallet_address b ∧
  same_profile b (apply_credit tapper b).
Proof. rewrite apply_credit_frame. repeat split. Qed.

(** X1. Over any sequence of skip, wallet, dashboard and tap updates the
    tap counter of every row stays between 0 and [MAX_TAPS_PER_DAY], when
    it did at the start: line 156 never writes a counter above the cap,
    whatever the order of the updates and whoever sends them. *)
Theorem taps_stay_in_range (isAddress : string -> bool) (rs : list request)
    (s : store) :
  (∀ k b, s !! k = Some b → 0 ≤ taps b ≤ MAX_TAPS_PER_DAY) →
  ∀ k b, rows (handle_all isAddress rs (connect s)) !! k = Some b →
         0 ≤ taps b ≤ MAX_TAPS_PER_DAY.
Proof.
  intros Hs.
  apply (run_invariant isAddress taps_ok); [|reflexivity|exact Hs].
  intros r c Hclean Hok k b' Hk'.
  pose proof (dispatch_row isAddress r c k Hclean) as Hrow.
  destruct (rows c !! k) as [b|] eqn:Hk.
  - pose proof (Hok k b Hk) as Hb.
    destruct Hrow as [H|[(text & _ & _ & H)|(v & now & av & _ & Hv & _ & H)]];
      rewrite H in Hk'; injection Hk' as <-.
    + exact Hb.
    + exact Hb.
    + destruct (apply_credit_taps av (if decide (v = k) then after_tap now b else b))
        as (-> & _).
      case_decide; [|exact Hb].
      cbn [after_tap set_tap taps].
      pose proof (new_taps_range (taps b)). lia.
  - destruct Hrow as [H|(t & _ & _ & H)]; rewrite H in Hk'; [discriminate|].
    injection Hk' as <-. cbn. unfold MAX_TAPS_PER_DAY. lia.
Qed.

Lemma taps_stay_in_range_witness :
  let rs := [OnTap 4 100; OnTap 4 200; OnWalletText 2 "hello";
             OnTap 3 (ONE_DAY + 1); OnSkip 9 5000; OnTap 9 6000] in
  (∀ k b, Sample.table !! k = Some b → 0 ≤ taps b ≤ MAX_TAPS_PER_DAY) ∧
  ∀ k b,
    rows (handle_all Sample.hex_address rs (connect Sample.table)) !! k
      = Some b →
    0 ≤ taps b ≤ MAX_TAPS_PER_DAY.
Proof.
  cbv zeta.
  assert (Hs : ∀ k b, Sample.table !! k = Some b →
                      0 ≤ taps b ≤ MAX_TAPS_PER_DAY).
  { intros k b. unfold Sample.table.
    rewrite !lookup_insert. repeat case_decide; try discriminate.
    all: intros [= <-]; unfold MAX_TAPS_PER_DAY; cbn; lia. }
  split; [exact Hs|].
  apply (taps_stay_in_range Sample.hex_address _ Sample.table). exact Hs.
Defined.

(** X2. No sequence of updates makes two rows hold the same wallet
    address: the [UNIQUE] constraint that [handle_wallet_address] runs
    into (lines 110-121) keeps the column unique from any table where it
    is. *)
Theorem wallets_stay_unique (isAddress : string -> bool) (rs : list request)
    (s : store) :
  wallet_unique s →
  wallet_unique (rows (handle_all isAddress rs (connect s))).
Proof.
  intros Hs.
  refine (run_invariant isAddress wallet_unique _ rs (connect s) eq_refl Hs).
  intros r c Hclean Huniq k1 k2 b1' b2' w Hk1' Hk2' Hw1 Hw2.
  destruct (decide (k1 = k2)) as [|Hne]; [assumption|exfalso].
  (* the wallet column of a row after the update *)
  assert (Hcol : ∀ k b', rows (snd (dispatch isAddress r c)) !! k = Some b' →
            wallet_address b' = Some w →
            (∃ b, rows c !! k = Some b ∧ wallet_address b = Some w)
            ∨ (r = OnWalletText k w ∧ wallet_taken k w (rows c) = false)).
  { intros k b' Hk' Hw.
    pose proof (dispatch_row isAddress r c k Hclean) as Hrow.
    destruct (rows c !! k) as [b|] eqn:Hk.
    - destruct Hrow as [H|[(text & Hr & Ht & H)|(v & now & av & _ & _ & _ & H)]];
        rewrite H in Hk'; injection Hk' as <-.
      + left. eauto.
      + right. cbn in Hw. injection Hw as ->. done.
      + left. exists b. split; [reflexivity|].
        destruct (apply_credit_taps av (if decide (v = k) then after_tap now b else b))
          as (_ & _ & Hwa & _).
        rewrite Hwa in Hw. destruct (decide (v = k)); exact Hw.
    - destruct Hrow as [H|(t & _ & _ & H)]; rewrite H in Hk'; [discriminate|].
      injection Hk' as <-. discriminate. }
  destruct (Hcol k1 b1' Hk1' Hw1) as [(b1 & Hb1 & Hwb1)|[Hr1 Ht1]];
    destruct (Hcol k2 b2' Hk2' Hw2) as [(b2 & Hb2 & Hwb2)|[Hr2 Ht2]].
  - apply Hne. apply (Huniq k1 k2 b1 b2 w); assumption.
  - assert (Hex : wallet_taken k2 w (rows c) = true).
    { apply wallet_taken_spec. exists k1, b1. done. }
    congruence.
  - assert (Hex : wallet_taken k1 w (rows c) = true).
    { apply wallet_taken_spec. exists k2, b2. done. }
    congruence.
  - congruence.
Qed.

Lemma wallets_stay_unique_witness :
  let rs := [OnWalletText 2 "0x52908400098527886E0F7030069857D2E4169EE7";
             OnWalletText 3 "0x52908400098527886E0F7030069857D2E4169EE7";
             OnWalletText 2 "0xde709f2102306220921060314715629080e2fb77"] in
  wallet_unique Sample.table ∧
  wallet_unique
    (rows (handle_all Sample.hex_address rs (connect Sample.table))).
Proof.
  cbv zeta.
  assert (Hs : wallet_unique Sample.table).
  { intros k1 k2 b1 b2 w. unfold Sample.table.
    rewrite !lookup_insert. repeat case_decide; try discriminate.
    all: intros [= <-] [= <-]; cbn; try discriminate; intros; lia. }
  split; [exact Hs|].
  apply (wallets_stay_unique Sample.hex_address _ Sample.table). exact Hs.
Defined.

(** X3. No handler deletes a row and none writes [mining_power],
    [referral_code], [referred_by], [referral_count], [joined_telegram] or
    [followed_twitter]: after any sequence of updates a row of the
    starting table is still there, with these six columns as they
    were. *)
Theorem profile_is_never_written (isAddress : string -> bool)
    (rs : list request) (s : store) (k : Z) (b : account) :
  s !! k = Some b →
  ∃ b', rows (handle_all isAddress rs (connect s)) !! k = Some b' ∧
        mining_power b' = mining_power b ∧
        referral_code b' = referral_code b ∧
        referred_by b' = referred_by b ∧
        referral_count b' = referral_count b ∧
        joined_telegram b' = joined_telegram b ∧
        followed_twitter b' = followed_twitter b.
Proof.
  intros Hk.
  apply (run_invariant isAddress
           (λ s', ∃ b', s' !! k = Some b' ∧ same_profile b b'));
    [|reflexivity|exists b; repeat split; exact Hk].
  intros r c Hclean (b0 & Hk0 & Hp0).
  pose proof (dispatch_row isAddress r c k Hclean) as Hrow. rewrite Hk0 in Hrow.
  destruct Hrow as [H|[(text & _ & _ & H)|(v & now & av & _ & _ & _ & H)]];
    rewrite H; eexists; (split; [reflexivity|]).
  - exact Hp0.
  - exact Hp0.
  - destruct (apply_credit_taps av (if decide (v = k) then after_tap now b0 else b0))
      as (_ & _ & _ & Hsp).
    unfold same_profile in *. destruct (decide (v = k)); cbn in Hsp; intuition congruence.
Qed.

Lemma profile_is_never_written_witness :
  let rs := [OnTap 2 2000; OnSkip 2 2100;
             OnWalletText 2 "0x52908400098527886E0F7030069857D2E4169EE7";
             OnTap 1 2500] in
  Sample.table !! 2 = Some Sample.bob ∧
  ∃ b', rows (handle_all Sample.hex_address rs (connect Sample.table)) !! 2
          = Some b' ∧
        mining_power b' = mining_power Sample.bob ∧
        referral_code b' = referral_code Sample.bob ∧
        referred_by b' = referred_by Sample.bob ∧
        referral_count b' = referral_count Sample.bob ∧
        joined_telegram b' = joined_telegram Sample.bob ∧
        followed_twitter b' = followed_twitter Sample.bob.
Proof.
  cbv zeta. split; [reflexivity|].
  apply (profile_is_never_written Sample.hex_address _ Sample.table 2
           Sample.bob).
  reflexivity.
Defined.

Lemma skipped_cons (r : request) (rs : list request) :
  skipped (r :: rs) = skipped [r] ∪ skipped rs.
Proof.
  unfold skipped. destruct r; cbn [omap list_omap list_to_set]; set_solver.
Qed.

(** The users with a row after one update: [skip] adds its user unless
    the [INSERT] is refused. *)
Lemma dispatch_dom (isAddress : string -> bool) (r : request) (c : conn) :
  clean c →
  dom (rows (snd (dispatch isAddress r c)))
  = dom (rows c) ∪ (if raised (fst (dispatch isAddress r c)) then ∅
                    else skipped [r]).
Proof.
  intros Hclean.
  destruct (raised (fst (dispatch isAddress r c))) eqn:Hraised.
  { destruct (dispatch_raised isAddress r c Hraised) as (-> & _). set_solver. }
  apply set_eq. intros k. rewrite elem_of_union, !elem_of_dom.
  pose proof (dispatch_row isAddress r c k Hclean) as Hrow.
  destruct (rows c !! k) as [b|] eqn:Hk.
  - split; [intros _; left; eauto|intros _].
    destruct Hrow as [H|[(text & _ & _ & H)|(v & now & av & _ & _ & _ & H)]];
      rewrite H; eauto.
  - destruct Hrow as [H|(t & -> & Hrange & H)]; rewrite H.
    + split; [intros [? ?]; discriminate|].
      intros [[? ?]|Hin]; [discriminate|].
      exfalso. unfold skipped in Hin.
      destruct r as [v t|v text|v|v now];
        cbn [omap list_omap list_to_set] in Hin; try set_solver.
      assert (v = k) by set_solver. subst v.
      cbn [dispatch] in H, Hraised.
      destruct (skip_cases c k t) as [[Hr Hs]|[Hr Hs]];
        rewrite Hs in H, Hraised; [|discriminate].
      cbn [snd commit execute rows] in H.
      rewrite Hk, lookup_insert_eq in H. discriminate.
    + split; [intros _; right|eauto].
      unfold skipped. cbn [omap list_omap list_to_set]. set_solver.
Qed.

(** X4. [skip] is the only handler that creates a row, and no handler
    deletes one: after any sequence of updates the users with a row
    include those who had one at the start and are among these and the
    users who have sent [skip].  When every [skip] comes from a user
    whose id is in the range of the [user_id] column, the users with a
    row are exactly those of the start together with those who have
    sent [skip]. *)
Theorem registered_iff_skipped (isAddress : string -> bool)
    (rs : list request) (s : store) :
  dom s ⊆ dom (rows (handle_all isAddress rs (connect s))) ∧
  dom (rows (handle_all isAddress rs (connect s))) ⊆ dom s ∪ skipped rs ∧
  ((∀ v t, OnSkip v t ∈ rs → int4 v) →
   dom (rows (handle_all isAddress rs (connect s))) = dom s ∪ skipped rs).
Proof.
  change (dom s) with (dom (rows (connect s))).
  assert (Hclean : clean (connect s)) by reflexivity.
  revert Hclean. generalize (connect s). clear s.
  induction rs as [|r rs IH]; intros c Hclean.
  - cbn [handle_all]. unfold skipped. cbn [omap list_omap list_to_set].
    split; [set_solver|]. split; [set_solver|]. intros _. set_solver.
  - rewrite handle_all_cons, skipped_cons.
    pose proof (dispatch_dom isAddress r c Hclean) as Hd.
    destruct (raised (fst (dispatch isAddress r c))) eqn:Hraised.
    + destruct (dispatch_raised isAddress r c Hraised)
        as (Hc & v & t & -> & Hout).
      rewrite Hc. split; [set_solver|]. split; [set_solver|].
      intros Hin. exfalso. apply Hout. apply (Hin v t). left.
    + destruct (IH _ (dispatch_clean isAddress r c Hclean))
        as (H1 & H2 & H3).
      rewrite Hd in H1, H2, H3.
      split; [set_solver|]. split; [set_solver|].
      intros Hin. rewrite H3; [set_solver|].
      intros v t Hvt. apply (Hin v t). right. exact Hvt.
Qed.

Lemma registered_iff_skipped_witness :
  let rs := [OnSkip 9 50; OnTap 9 60; OnSkip 1 70; OnDashboard 12] in
  (∀ v t, OnSkip v t ∈ rs → int4 v) ∧
  dom (rows (handle_all Sample.hex_address rs (connect Sample.table)))
  = dom Sample.table ∪ skipped rs.
Proof.
  cbv zeta.
  assert (Hin : ∀ v t,
            OnSkip v t ∈ [OnSkip 9 50; OnTap 9 60; OnSkip 1 70;
                          OnDashboard 12] → int4 v).
  { intros v t Hvt. unfold int4.
    repeat (apply elem_of_cons in Hvt as [Hvt|Hvt];
            [try discriminate; injection Hvt as -> ->; lia|]).
    apply elem_of_nil in Hvt. destruct Hvt. }
  split; [exact Hin|].
  apply (registered_iff_skipped Sample.hex_address _ Sample.table). exact Hin.
Defined.

(** X5. A reply other than [Skipped], [WalletBound] and [Tapped] means
    that nothing was written: after an invalid address, a duplicate
    wallet, a dashboard view or a rejected tap the connection, its
    committed history included, is the one the handler was given; so it
    is when [skip] ends in the exception of a refused [INSERT]. *)
Theorem only_reported_writes_change (isAddress : string -> bool)
    (r : request) (c : conn) :
  clean c →
  reports_write (fst (dispatch isAddress r c)) = false →
  snd (dispatch isAddress r c) = c.
Proof.
  intros Hclean. destruct r as [v t|v text|v|v now]; cbn [dispatch].
  - destruct (skip_cases c v t) as [[Hr ->]|[Hr ->]]; cbn [fst snd];
      [discriminate|reflexivity].
  - unfold handle_wallet_address.
    destruct (isAddress text); cbn [negb]; [|reflexivity].
    destruct (sql_update_wallet v text (rows c)); cbn; [discriminate|].
    intros _. apply rollback_clean. exact Hclean.
  - unfold view_dashboard. destruct (select_dashboard v (rows c)); reflexivity.
  - unfold handle_tap, tap_after_fetch.
    destruct (select_tap_state v (rows c)) as [[[t ts] m]|]; [|reflexivity].
    destruct (eligible t ts now); [cbn; discriminate|reflexivity].
Qed.

Lemma only_reported_writes_change_witness :
  let c := connect Sample.table in
  clean c ∧
  reports_write (fst (dispatch Sample.hex_address (OnTap 3 100) c)) = false ∧
  snd (dispatch Sample.hex_address (OnTap 3 100) c) = c.
Proof.
  cbv zeta. split; [reflexivity|]. split; [reflexivity|].
  apply (only_reported_writes_change Sample.hex_address (OnTap 3 100)
           (connect Sample.table)); reflexivity.
Defined.

(** X6. Every handler returns with nothing left uncommitted, and the
    history of committed tables only grows: after any sequence of updates
    the commits made before are still there, below the new ones. *)
Theorem history_only_grows (isAddress : string -> bool) (rs : list request)
    (c : conn) :
  clean c →
  clean (handle_all isAddress rs c) ∧
  ∃ newer, commits (handle_all isAddress rs c) = newer ++ commits c.
Proof.
  revert c. induction rs as [|r rs IH]; intros c Hclean.
  - split; [exact Hclean|]. exists []. reflexivity.
  - rewrite handle_all_cons.
    assert (Hone : ∃ n1, commits (snd (dispatch isAddress r c)) = n1 ++ commits c).
    { destruct r as [v t|v text|v|v now]; cbn [dispatch].
      - destruct (skip_cases c v t) as [[Hr ->]|[Hr ->]]; cbn [snd].
        + eexists [_]. reflexivity.
        + exists []. reflexivity.
      - unfold handle_wallet_address.
        destruct (isAddress text); cbn [negb snd]; [|exists []; reflexivity].
        destruct (sql_update_wallet v text (rows c)); cbn [snd].
        + eexists [_]. reflexivity.
        + exists []. reflexivity.
      - unfold view_dashboard.
        destruct (select_dashboard v (rows c)); exists []; reflexivity.
      - unfold handle_tap, tap_after_fetch.
        destruct (select_tap_state v (rows c)) as [[[t ts] m]|];
          [|exists []; reflexivity].
        destruct (eligible t ts now); [|exists []; reflexivity].
        cbn [snd]. unfold referral_commit.
        destruct (select_referred_by v _) as [[code|]|];
          try (eexists [_]; reflexivity).
        destruct (String.eqb code ""); [eexists [_]|eexists [_; _]]; reflexivity. }
    destruct (raised (fst (dispatch isAddress r c))).
    { split; [apply dispatch_clean; exact Hclean|exact Hone]. }
    destruct (IH _ (dispatch_clean isAddress r c Hclean)) as (Hc & newer & Hn).
    split; [exact Hc|]. rewrite Hn.
    destruct Hone as (n1 & ->). exists (newer ++ n1). apply app_assoc.
Qed.

Lemma history_only_grows_witness :
  let rs := [OnTap 2 2000; OnTap 3 2100; OnSkip 9 2600; OnDashboard 9] in
  let c := connect Sample.table in
  clean c ∧
  clean (handle_all Sample.hex_address rs c) ∧
  ∃ newer, commits (handle_all Sample.hex_address rs c) = newer ++ commits c.
Proof.
  cbv zeta. split; [reflexivity|].
  apply (history_only_grows Sample.hex_address _ (connect Sample.table)).
  reflexivity.
Defined.

(** * The daily cap as a rate limit *)

Section RateLimit.

Variable isAddress : string -> bool.

(** One update, seen from the counter of [uid]. *)
Lemma dispatch_counter (r : request) (c : conn) (uid : Z) (a : account) :
  clean c → rows c !! uid = Some a →
  ∃ a', rows (snd (dispatch isAddress r c)) !! uid = Some a' ∧
        if is_own_tap uid r c
        then ∃ now, r = OnTap uid now ∧ tap_allowed a now ∧
                    taps a' = new_taps (taps a) ∧ tap_timestamp a' = now
        else taps a' = taps a ∧ tap_timestamp a' = tap_timestamp a.
Proof.
  intros Hclean Ha.
  assert (Hother : (∀ v now, r ≠ OnTap v now) →
            ∃ a', rows (snd (dispatch isAddress r c)) !! uid = Some a' ∧
                  taps a' = taps a ∧ tap_timestamp a' = tap_timestamp a).
  { intros Hnt.
    pose proof (dispatch_row isAddress r c uid Hclean) as Hrow.
    rewrite Ha in Hrow.
    destruct Hrow as [H|[(text & _ & _ & H)|(v & now & av & Hr & _)]].
    - exists a. done.
    - eexists. split; [exact H|]. done.
    - exfalso. apply (Hnt v now). exact Hr. }
  destruct r as [v t|v text|v|v now];
    try (cbn [is_own_tap]; apply Hother; discriminate).
  clear Hother.
  cbn [dispatch is_own_tap]. rewrite rows_handle_tap_any.
  destruct (Z.eq_dec v uid) as [->|Hne].
  - rewrite bool_decide_eq_true_2 by reflexivity. cbn [andb].
    rewrite (handle_tap_registered _ _ _ _ Ha), Ha.
    destruct (eligible (taps a) (tap_timestamp a) now) eqn:E; cbn [fst].
    + rewrite decide_True by reflexivity.
      eexists. split; [reflexivity|].
      exists now. split; [reflexivity|].
      split; [apply eligible_spec; exact E|].
      rewrite apply_credit_frame. split; reflexivity.
    + exists a. done.
  - rewrite bool_decide_eq_false_2 by exact Hne. cbn [andb].
    destruct (rows c !! v) as [av|]; [|exists a; done].
    destruct (eligible (taps av) (tap_timestamp av) now); [|exists a; done].
    rewrite decide_False by exact Hne. rewrite Ha.
    eexists. split; [reflexivity|]. rewrite apply_credit_frame. done.
Qed.

(** The successful taps of a run are at most those of its first update
    and of the rest. *)
Lemma successful_taps_step (uid : Z) (r : request) (rs : list request)
    (c : conn) :
  Z.of_nat (successful_taps isAddress uid (r :: rs) c)
  ≤ (if is_own_tap uid r c then 1 else 0)
    + Z.of_nat (successful_taps isAddress uid rs
                  (snd (dispatch isAddress r c))).
Proof.
  rewrite successful_taps_cons, Nat2Z.inj_add.
  destruct (raised (fst (dispatch isAddress r c)));
    destruct (is_own_tap uid r c); lia.
Qed.

(** Once the last tap lies inside the window only the counter limits the
    taps. *)
Lemma taps_left (uid lo : Z) (rs : list request) :
  ∀ (c : conn) (a : account),
    clean c → rows c !! uid = Some a →
    (∀ now, OnTap uid now ∈ rs → lo ≤ now ≤ lo + ONE_DAY) →
    lo ≤ tap_timestamp a → taps a ≤ MAX_TAPS_PER_DAY →
    Z.of_nat (successful_taps isAddress uid rs c) ≤ MAX_TAPS_PER_DAY - taps a.
Proof.
  induction rs as [|r rs IH]; intros c a Hclean Ha Hwin Hts Ht.
  - cbn [successful_taps]. lia.
  - pose proof (successful_taps_step uid r rs c) as Hstep.
    destruct (dispatch_counter r c uid a Hclean Ha) as (a' & Ha' & Hcase).
    assert (Hwin' : ∀ now, OnTap uid now ∈ rs → lo ≤ now ≤ lo + ONE_DAY).
    { intros now Hin. apply Hwin. right. exact Hin. }
    pose proof (dispatch_clean isAddress r c Hclean) as Hclean'.
    destruct (is_own_tap uid r c).
    + destruct Hcase as (now & -> & Hok & Ht' & Hts').
      assert (Hnow : lo ≤ now ≤ lo + ONE_DAY) by (apply Hwin; left).
      assert (Hlt : taps a < MAX_TAPS_PER_DAY) by (destruct Hok; lia).
      assert (Hnt : new_taps (taps a) = taps a + 1).
      { unfold new_taps. apply Z.ltb_lt in Hlt. rewrite Hlt. reflexivity. }
      pose proof (IH _ a' Hclean' Ha' Hwin') as Hrest.
      rewrite Ht', Hts', Hnt in Hrest. lia.
    + destruct Hcase as (Ht' & Hts').
      pose proof (IH _ a' Hclean' Ha' Hwin') as Hrest.
      rewrite Ht', Hts' in Hrest. lia.
Qed.

Lemma taps_in_window_registered (uid lo : Z) (rs : list request) :
  ∀ (c : conn) (a : account),
    clean c → rows c !! uid = Some a →
    (∀ now, OnTap uid now ∈ rs → lo ≤ now ≤ lo + ONE_DAY) →
    0 ≤ taps a →
    Z.of_nat (successful_taps isAddress uid rs c) ≤ MAX_TAPS_PER_DAY.
Proof.
  induction rs as [|r rs IH]; intros c a Hclean Ha Hwin Ht.
  - cbn [successful_taps]. unfold MAX_TAPS_PER_DAY. lia.
  - pose proof (successful_taps_step uid r rs c) as Hstep.
    destruct (dispatch_counter r c uid a Hclean Ha) as (a' & Ha' & Hcase).
    assert (Hwin' : ∀ now, OnTap uid now ∈ rs → lo ≤ now ≤ lo + ONE_DAY).
    { intros now Hin. apply Hwin. right. exact Hin. }
    pose proof (dispatch_clean isAddress r c Hclean) as Hclean'.
    destruct (is_own_tap uid r c).
    + destruct Hcase as (now & -> & Hok & Ht' & Hts').
      assert (Hnow : lo ≤ now ≤ lo + ONE_DAY) by (apply Hwin; left).
      pose proof (new_taps_range (taps a) Ht) as Hr.
      pose proof (taps_left uid lo rs _ a' Hclean' Ha' Hwin') as Hrest.
      rewrite Ht', Hts' in Hrest. lia.
    + destruct Hcase as (Ht' & Hts').
      assert (Ht0 : 0 ≤ taps a') by lia.
      pose proof (IH _ a' Hclean' Ha' Hwin' Ht0). lia.
Qed.

Lemma taps_in_window_unregistered (uid lo : Z) (rs : list request) :
  ∀ (c : conn),
    clean c → rows c !! uid = None →
    (∀ now, OnTap uid now ∈ rs → lo ≤ now ≤ lo + ONE_DAY) →
    Z.of_nat (successful_taps isAddress uid rs c) ≤ MAX_TAPS_PER_DAY.
Proof.
  induction rs as [|r rs IH]; intros c Hclean Ha Hwin.
  - cbn [successful_taps]. unfold MAX_TAPS_PER_DAY. lia.
  - pose proof (successful_taps_step uid r rs c) as Hstep.
    assert (Hwin' : ∀ now, OnTap uid now ∈ rs → lo ≤ now ≤ lo + ONE_DAY).
    { intros now Hin. apply Hwin. right. exact Hin. }
    pose proof (dispatch_clean isAddress r c Hclean) as Hclean'.
    assert (Hown : is_own_tap uid r c = false).
    { destruct r as [v t|v text|v|v now]; try reflexivity. cbn [is_own_tap].
      destruct (Z.eq_dec v uid) as [->|Hne].
      - rewrite (handle_tap_unregistered _ _ _ Ha). apply andb_false_r.
      - rewrite bool_decide_eq_false_2 by exact Hne. reflexivity. }
    rewrite Hown in Hstep.
    pose proof (dispatch_row isAddress r c uid Hclean) as Hrow. rewrite Ha in Hrow.
    destruct Hrow as [H|(t & _ & _ & H)].
    + pose proof (IH _ Hclean' H Hwin'). lia.
    + assert (Ht0 : 0 ≤ taps (default_row t BONUS_TOKENS)) by (cbn; lia).
      pose proof (taps_in_window_registered uid lo rs _ _ Hclean' H Hwin' Ht0).
      lia.
Qed.

End RateLimit.

(** X7. The daily cap as a rate limit.  Among the tap requests of one
    user whose times all lie within one span of 24 hours, at most
    [MAX_TAPS_PER_DAY] = 10 are answered [Tapped], whatever other updates
    (of this user or of others) come in between and whatever the
    timestamp at the start; the counter at the start is only taken to be
    non-negative. *)
Theorem tap_rate_limit (isAddress : string -> bool) (rs : list request)
    (s : store) (uid lo : Z) :
  (∀ a, s !! uid = Some a → 0 ≤ taps a) →
  (∀ now, OnTap uid now ∈ rs → lo ≤ now ≤ lo + ONE_DAY) →
  (successful_taps isAddress uid rs (connect s) ≤ 10)%nat.
Proof.
  intros Ht Hwin.
  enough (Z.of_nat (successful_taps isAddress uid rs (connect s))
          ≤ MAX_TAPS_PER_DAY) by (unfold MAX_TAPS_PER_DAY in *; lia).
  destruct (s !! uid) as [a|] eqn:Ha.
  - apply (taps_in_window_registered isAddress uid lo rs (connect s) a);
      [reflexivity|exact Ha|exact Hwin|apply Ht; reflexivity].
  - apply (taps_in_window_unregistered isAddress uid lo rs (connect s));
      [reflexivity|exact Ha|exact Hwin].
Qed.

Lemma tap_rate_limit_witness :
  let rs := [OnTap 4 100; OnTap 4 200; OnDashboard 4; OnTap 4 300] in
  (∀ a, Sample.table !! 4 = Some a → 0 ≤ taps a) ∧
  (∀ now, OnTap 4 now ∈ rs → 100 ≤ now ≤ 100 + ONE_DAY) ∧
  (successful_taps Sample.hex_address 4 rs (connect Sample.table) ≤ 10)%nat.
Proof.
  cbv zeta.
  assert (H1 : ∀ a, Sample.table !! 4 = Some a → 0 ≤ taps a).
  { intros a Ha. change (Some Sample.almost = Some a) in Ha.
    injection Ha as <-. cbn. lia. }
  assert (H2 : ∀ now,
             OnTap 4 now ∈ [OnTap 4 100; OnTap 4 200; OnDashboard 4;
                            OnTap 4 300] →
             100 ≤ now ≤ 100 + ONE_DAY).
  { intros now Hin. unfold ONE_DAY.
    repeat (apply elem_of_cons in Hin as [Hin|Hin];
            [try discriminate; injection Hin as ->; lia|]).
    apply elem_of_nil in Hin. destruct Hin. }
  split; [exact H1|]. split; [exact H2|].
  apply (tap_rate_limit Sample.hex_address _ Sample.table 4 100 H1 H2).
Defined.

(** * Tables built by the handlers alone *)

Section FromScratch.

Variable isAddress : string -> bool.

Lemma untouched_step (r : request) (c : conn) :
  clean c →
  (∀ k b, rows c !! k = Some b → untouched_profile b) →
  ∀ k b, rows (snd (dispatch isAddress r c)) !! k = Some b →
         untouched_profile b.
Proof.
  intros Hclean Hall k b' Hk'.
  pose proof (dispatch_row isAddress r c k Hclean) as Hrow.
  destruct (rows c !! k) as [b|] eqn:Hk.
  - pose proof (Hall k b Hk) as Hb.
    destruct Hrow as [H|[(text & _ & _ & H)|(v & now & av & _ & Hv & _ & H)]];
      rewrite H in Hk'; injection Hk' as <-.
    + exact Hb.
    + exact Hb.
    + destruct (Hall v av Hv) as (Hmv & _ & Hrv & _).
      assert (Hno : referrer_of av = None) by (unfold referrer_of; rewrite Hrv; reflexivity).
      unfold apply_credit. rewrite Hno.
      destruct Hb as (Hm & Hrc & Hrb & Hcnt & Hj & Hf & n & Hn).
      case_decide; [|repeat split; eauto].
      repeat split; try assumption.
      exists (S n). cbn [after_tap set_tap token_balance].
      unfold new_tokens, TAP_REWARD. rewrite Hn, Hm. lia.
  - destruct Hrow as [H|(t & _ & _ & H)]; rewrite H in Hk'; [discriminate|].
    injection Hk' as <-. repeat split. exists 0%nat. cbn. lia.
Qed.

Lemma no_credit_step (uid : Z) (r : request) (c : conn) :
  (∀ k b, rows c !! k = Some b → untouched_profile b) →
  credit_received uid r c = 0.
Proof.
  intros Hall. destruct r as [v t|v text|v|v now]; try reflexivity.
  cbn [credit_received].
  destruct (fst (handle_tap v now c)); try reflexivity.
  destruct (rows c !! v) as [av|] eqn:Hv; [|reflexivity].
  destruct (rows c !! uid) as [au|]; [|reflexivity].
  destruct (Hall v av Hv) as (_ & _ & Hrv & _).
  unfold referrer_of. rewrite Hrv. reflexivity.
Qed.

Lemma no_credit_run (uid : Z) (rs : list request) :
  ∀ c, clean c → (∀ k b, rows c !! k = Some b → untouched_profile b) →
       credits_received isAddress uid rs c = 0.
Proof.
  induction rs as [|r rs IH]; intros c Hclean Hall; [reflexivity|].
  rewrite credits_received_cons, (no_credit_step uid r c Hall).
  destruct (raised (fst (dispatch isAddress r c))); [reflexivity|].
  rewrite IH; [reflexivity|apply dispatch_clean; exact Hclean|].
  apply untouched_step; assumption.
Qed.

End FromScratch.

(** X8. On a table built by the handlers alone, starting empty, the
    referral step of [handle_tap] (lines 165-173) never pays: every row
    has mining power 100, no referral code, no referrer, referral count 0
    and both flags false, its balance is the signup bonus plus a whole
    number of rewards of 100000, and the referral credits received by any
    user over the run add up to 0. *)
Theorem no_referral_from_scratch (isAddress : string -> bool)
    (rs : list request) :
  (∀ k b, rows (handle_all isAddress rs (connect ∅)) !! k = Some b →
     mining_power b = 100 ∧ referral_code b = None ∧ referred_by b = None ∧
     referral_count b = 0 ∧ joined_telegram b = false ∧
     followed_twitter b = false ∧
     ∃ n : nat, token_balance b = 500000 + Z.of_nat n * 100000) ∧
  (∀ uid, credits_received isAddress uid rs (connect ∅) = 0).
Proof.
  assert (H0 : ∀ k b, rows (connect ∅) !! k = Some b → untouched_profile b).
  { intros k b Hk. cbn [connect rows] in Hk. rewrite lookup_empty in Hk.
    discriminate. }
  split.
  - apply (run_invariant isAddress
             (λ s, ∀ k b, s !! k = Some b → untouched_profile b));
      [|reflexivity|exact H0].
    intros r c Hclean Hall. apply untouched_step; assumption.
  - intros uid. apply no_credit_run; [reflexivity|exact H0].
Qed.

Lemma no_referral_from_scratch_witness :
  let rs := [OnSkip 7 10; OnTap 7 20; OnTap 8 30; OnSkip 8 40; OnTap 7 50] in
  (∀ k b, rows (handle_all Sample.hex_address rs (connect ∅)) !! k = Some b →
     mining_power b = 100 ∧ referral_code b = None ∧ referred_by b = None ∧
     referral_count b = 0 ∧ joined_telegram b = false ∧
     followed_twitter b = false ∧
     ∃ n : nat, token_balance b = 500000 + Z.of_nat n * 100000) ∧
  (∀ uid, credits_received Sample.hex_address uid rs (connect ∅) = 0).
Proof.
  cbv zeta. apply (no_referral_from_scratch Sample.hex_address).
Defined.

(** * Edges of the referral step *)

(** X9. A successful tap of a user whose [referred_by] is NULL or the
    empty string (the two values line 167 takes as unset) skips the
    referral step: the table afterwards is the old one with the tapper's
    row updated, and exactly one commit is added to the history. *)
Theorem tap_without_referrer (c : conn) (uid now : Z) (a : account) :
  rows c !! uid = Some a →
  taps a < MAX_TAPS_PER_DAY ∨ now - tap_timestamp a > ONE_DAY →
  referred_by a = None ∨ referred_by a = Some "" →
  rows (snd (handle_tap uid now c)) = <[uid := after_tap now a]> (rows c) ∧
  commits (snd (handle_tap uid now c))
    = <[uid := after_tap now a]> (rows c) :: commits c.
Proof.
  intros Ha Hok Hnone.
  rewrite (handle_tap_registered _ _ _ _ Ha).
  apply (eligible_spec a now) in Hok. rewrite Hok. cbn [snd].
  assert (Hrows : rows (tap_commit uid now (taps a) (mining_power a) c)
                  = <[uid := after_tap now a]> (rows c)).
  { apply map_eq. intros k. rewrite (rows_tap_commit _ _ _ _ _ Ha), lookup_insert.
    reflexivity. }
  assert (Hsame : referral_commit uid (new_tokens (mining_power a))
                    (tap_commit uid now (taps a) (mining_power a) c)
                  = tap_commit uid now (taps a) (mining_power a) c).
  { unfold referral_commit, select_referred_by. rewrite Hrows, lookup_insert_eq.
    cbn [fmap option_fmap option_map after_tap set_tap referred_by].
    destruct Hnone as [->| ->]; reflexivity. }
  rewrite Hsame. split; [exact Hrows|].
  unfold tap_commit at 1. cbn [commit commits execute].
  f_equal. fold (tap_commit uid now (taps a) (mining_power a) c) in *.
  unfold tap_commit, commit, execute in Hrows. cbn [rows] in Hrows. exact Hrows.
Qed.

Lemma tap_without_referrer_witness :
  let c := connect Sample.table in
  rows c !! 4 = Some Sample.almost ∧
  (taps Sample.almost < MAX_TAPS_PER_DAY
   ∨ 100 - tap_timestamp Sample.almost > ONE_DAY) ∧
  (referred_by Sample.almost = None ∨ referred_by Sample.almost = Some "") ∧
  rows (snd (handle_tap 4 100 c))
    = <[4 := after_tap 100 Sample.almost]> (rows c) ∧
  commits (snd (handle_tap 4 100 c))
    = <[4 := after_tap 100 Sample.almost]> (rows c) :: commits c.
Proof.
  cbv zeta.
  assert (H2 : taps Sample.almost < MAX_TAPS_PER_DAY
               ∨ 100 - tap_timestamp Sample.almost > ONE_DAY).
  { left. unfold MAX_TAPS_PER_DAY. cbn. lia. }
  split; [reflexivity|]. split; [exact H2|].
  split; [left; reflexivity|].
  apply (tap_without_referrer (connect Sample.table) 4 100 Sample.almost
           eq_refl H2).
  left. reflexivity.
Defined.

(** X10. Nothing in [handle_tap] tells the tapper from the referrer.  A
    user whose [referred_by] is their own [referral_code] is paid both
    the reward and the referral credit on it: the balance grows by
    [1100 * mining_power] instead of [1000 * mining_power]. *)
Theorem self_referral_pays_extra (c : conn) (uid now : Z) (a : account)
    (code : string) :
  rows c !! uid = Some a →
  taps a < MAX_TAPS_PER_DAY ∨ now - tap_timestamp a > ONE_DAY →
  referred_by a = Some code → code ≠ "" → referral_code a = Some code →
  int4 (mining_power a) →
  token_balance <$> (rows (snd (handle_tap uid now c)) !! uid)
    = Some (token_balance a + 1100 * mining_power a).
Proof.
  intros Ha Hok Hr Hne Hc Hm.
  assert (Ht : is_tapped (fst (handle_tap uid now c)))
    by (apply (tapped_iff_allowed c uid now a Ha); exact Hok).
  destruct (successful_tap_row c uid now a Ha Hm Ht)
    as (_ & _ & a2 & Ha2 & Hb2 & _).
  rewrite Ha2. cbn [fmap option_fmap option_map]. f_equal. rewrite Hb2.
  unfold own_credit. rewrite (referrer_of_set a code Hr Hne).
  rewrite decide_True by exact Hc.
  assert (Hd : new_tokens (mining_power a) / 10 = 100 * mining_power a).
  { symmetry. apply Z.div_unique_exact; [lia|].
    unfold new_tokens, TAP_REWARD. lia. }
  rewrite Hd. lia.
Qed.

Lemma self_referral_pays_extra_witness :
  let c := connect SelfReferred.table in
  rows c !! 5 = Some SelfReferred.carol ∧
  (taps SelfReferred.carol < MAX_TAPS_PER_DAY
   ∨ 600 - tap_timestamp SelfReferred.carol > ONE_DAY) ∧
  referred_by SelfReferred.carol = Some "CAROL" ∧ "CAROL" ≠ "" ∧
  referral_code SelfReferred.carol = Some "CAROL" ∧
  int4 (mining_power SelfReferred.carol) ∧
  token_balance <$> (rows (snd (handle_tap 5 600 c)) !! 5) = Some 810000.
Proof.
  cbv zeta.
  assert (H2 : taps SelfReferred.carol < MAX_TAPS_PER_DAY
               ∨ 600 - tap_timestamp SelfReferred.carol > ONE_DAY).
  { left. unfold MAX_TAPS_PER_DAY. cbn. lia. }
  assert (H4 : "CAROL" ≠ "") by discriminate.
  assert (H6 : int4 (mining_power SelfReferred.carol)).
  { unfold int4. cbn. lia. }
  split; [reflexivity|]. split; [exact H2|]. split; [reflexivity|].
  split; [exact H4|]. split; [reflexivity|]. split; [exact H6|].
  apply (self_referral_pays_extra (connect SelfReferred.table) 5 600
           SelfReferred.carol "CAROL" eq_refl H2 eq_refl H4 eq_refl H6).
Defined.

(** * Binding, viewing and rebinding a wallet *)

Section WalletRoundTrip.

Variable isAddress : string -> bool.

Lemma wallet_bound_inv (c : conn) (uid : Z) (w : string) (a : account) :
  rows c !! uid = Some a →
  fst (handle_wallet_address isAddress uid w c) = WalletBound →
  isAddress w = true ∧ wallet_taken uid w (rows c) = false ∧
  snd (handle_wallet_address isAddress uid w c)
    = commit (execute (λ _, <[uid := set_wallet w a]> (rows c)) c).
Proof.
  intros Ha. unfold handle_wallet_address, sql_update_wallet. rewrite Ha.
  destruct (isAddress w); cbn [negb fst snd]; [|discriminate].
  destruct (wallet_taken uid w (rows c)); cbn [fst snd]; [discriminate|].
  done.
Qed.

Lemma wallet_free (uid : Z) (w : string) (s : store) :
  wallet_taken uid w s = false ↔
  ∀ k b, s !! k = Some b → k ≠ uid → wallet_address b ≠ Some w.
Proof.
  destruct (wallet_taken uid w s) eqn:E.
  - apply wallet_taken_spec in E as (k & b & Hk & Hne & Hw).
    split; [discriminate|]. intros H. exfalso. exact (H k b Hk Hne Hw).
  - split; [|reflexivity]. intros _ k b Hk Hne Hw.
    assert (wallet_taken uid w s = true)
      by (apply wallet_taken_spec; exists k, b; done).
    congruence.
Qed.

Lemma wallet_bound_intro (c : conn) (uid : Z) (w : string) (a : account) :
  rows c !! uid = Some a → isAddress w = true →
  wallet_taken uid w (rows c) = false →
  handle_wallet_address isAddress uid w c
    = (WalletBound,
       commit (execute (λ _, <[uid := set_wallet w a]> (rows c)) c)).
Proof.
  intros Ha Hv Ht. unfold handle_wallet_address, sql_update_wallet.
  rewrite Ha, Hv, Ht. reflexivity.
Qed.

End WalletRoundTrip.

(** X11. Binding, viewing and rebinding a wallet.  After user A has
    bound address [w]: A's dashboard shows [w] and the balance A had;
    user B sending [w] is refused and the connection stays as it is;
    A sending [w] again is accepted and changes no row; and once A has
    bound another address, [w] is free and B can bind it. *)
Theorem wallet_round_trip (isAddress : string -> bool) (c : conn)
    (uidA uidB : Z) (w : string) (a b : account) :
  rows c !! uidA = Some a → rows c !! uidB = Some b → uidA ≠ uidB →
  fst (handle_wallet_address isAddress uidA w c) = WalletBound →
  let c1 := snd (handle_wallet_address isAddress uidA w c) in
  (∃ d, fst (view_dashboard uidA c1) = DashboardSnapshot d ∧
        d_wallet_address d = Some w ∧
        d_token_balance d = token_balance a) ∧
  handle_wallet_address isAddress uidB w c1 = (DuplicateWallet, c1) ∧
  (fst (handle_wallet_address isAddress uidA w c1) = WalletBound ∧
   rows (snd (handle_wallet_address isAddress uidA w c1)) = rows c1) ∧
  (∀ w2, w2 ≠ w →
     fst (handle_wallet_address isAddress uidA w2 c1) = WalletBound →
     fst (handle_wallet_address isAddress uidB w
            (snd (handle_wallet_address isAddress uidA w2 c1)))
       = WalletBound).
Proof.
  intros Ha Hb Hne Hbound c1.
  destruct (wallet_bound_inv isAddress c uidA w a Ha Hbound) as (Hv & Hfree & Hc1).
  assert (Hrows1 : rows c1 = <[uidA := set_wallet w a]> (rows c))
    by (subst c1; rewrite Hc1; reflexivity).
  assert (Hclean1 : clean c1) by (subst c1; rewrite Hc1; reflexivity).
  assert (HA1 : rows c1 !! uidA = Some (set_wallet w a))
    by (rewrite Hrows1; apply lookup_insert_eq).
  assert (HB1 : rows c1 !! uidB = Some b)
    by (rewrite Hrows1, lookup_insert_ne by exact Hne; exact Hb).
  pose proof (proj1 (wallet_free uidA w (rows c)) Hfree) as Hfree'.
  (* nobody but A holds w after the binding *)
  assert (Hfree1 : wallet_taken uidA w (rows c1) = false).
  { apply wallet_free. intros k x Hk Hk'. rewrite Hrows1 in Hk.
    rewrite lookup_insert_ne in Hk by congruence. exact (Hfree' k x Hk Hk'). }
  split; [|split; [|split]].
  - unfold view_dashboard, select_dashboard. rewrite HA1.
    eexists. split; [reflexivity|]. split; reflexivity.
  - unfold handle_wallet_address, sql_update_wallet. rewrite Hv, HB1.
    assert (Ht : wallet_taken uidB w (rows c1) = true).
    { apply wallet_taken_spec. exists uidA, (set_wallet w a). done. }
    rewrite Ht. cbn [negb]. rewrite (rollback_clean c1 Hclean1). reflexivity.
  - rewrite (wallet_bound_intro isAddress c1 uidA w _ HA1 Hv Hfree1).
    split; [reflexivity|]. cbn [snd commit execute rows].
    rewrite Hrows1, insert_insert_eq. reflexivity.
  - intros w2 Hw2 Hbound2.
    destruct (wallet_bound_inv isAddress c1 uidA w2 _ HA1 Hbound2)
      as (Hv2 & Hfree2 & Hc2).
    rewrite Hc2.
    assert (HB2 : rows (commit (execute
                     (λ _, <[uidA := set_wallet w2 (set_wallet w a)]> (rows c1)) c1))
                  !! uidB = Some b).
    { cbn [commit execute rows]. rewrite lookup_insert_ne by exact Hne. exact HB1. }
    rewrite (wallet_bound_intro isAddress _ uidB w b HB2 Hv); [reflexivity|].
    apply wallet_free. intros k x Hk Hk'. cbn [commit execute rows] in Hk.
    rewrite lookup_insert in Hk. case_decide.
    + injection Hk as <-. cbn. congruence.
    + rewrite Hrows1, lookup_insert_ne in Hk by congruence.
      apply (Hfree' k x Hk). congruence.
Qed.

Lemma wallet_round_trip_witness :
  let c := connect Sample.table in
  let w := "0x52908400098527886E0F7030069857D2E4169EE7" in
  let c1 := snd (handle_wallet_address Sample.hex_address 2 w c) in
  rows c !! 2 = Some Sample.bob ∧ rows c !! 3 = Some Sample.capped ∧
  2 ≠ 3 ∧
  fst (handle_wallet_address Sample.hex_address 2 w c) = WalletBound ∧
  (∃ d, fst (view_dashboard 2 c1) = DashboardSnapshot d ∧
        d_wallet_address d = Some w ∧
        d_token_balance d = token_balance Sample.bob) ∧
  handle_wallet_address Sample.hex_address 3 w c1 = (DuplicateWallet, c1) ∧
  (fst (handle_wallet_address Sample.hex_address 2 w c1) = WalletBound ∧
   rows (snd (handle_wallet_address Sample.hex_address 2 w c1)) = rows c1) ∧
  (∀ w2, w2 ≠ w →
     fst (handle_wallet_address Sample.hex_address 2 w2 c1) = WalletBound →
     fst (handle_wallet_address Sample.hex_address 3 w
            (snd (handle_wallet_address Sample.hex_address 2 w2 c1)))
       = WalletBound).
Proof.
  cbv zeta.
  assert (Hne : (2 : Z) ≠ 3) by lia.
  split; [reflexivity|]. split; [reflexivity|]. split; [exact Hne|].
  split; [vm_compute; reflexivity|].
  apply (wallet_round_trip Sample.hex_address (connect Sample.table) 2 3
           "0x52908400098527886E0F7030069857D2E4169EE7"
           Sample.bob Sample.capped eq_refl eq_refl Hne).
  vm_compute. reflexivity.
Defined.

(** * Taps of different users *)

Lemma apply_credit_as_effect (av b : account) :
  int4 (mining_power av) →
  apply_credit av b = set_balance (token_balance b + credit_to av b) b.
Proof.
  intros Hm. rewrite apply_credit_frame. f_equal.
  rewrite (apply_credit_exact _ _ Hm). reflexivity.
Qed.

(** The table after [handle_tap] is the table before with [tap_effect]
    applied to each row. *)
Lemma rows_tap_effect (v now : Z) (c : conn) (k : Z) :
  int4_ok (rows c) →
  rows (snd (handle_tap v now c)) !! k
    = tap_effect (rows c) v now k <$> rows c !! k.
Proof.
  intros Hint. rewrite rows_handle_tap_any. unfold tap_effect, tapper.
  destruct (rows c !! v) as [av|] eqn:Hv.
  2: { destruct (rows c !! k); reflexivity. }
  destruct (eligible (taps av) (tap_timestamp av) now).
  2: { destruct (rows c !! k); reflexivity. }
  pose proof (Hint v av Hv) as Hm.
  case_decide as Hvk.
  - subst k. rewrite Hv. cbn [fmap option_fmap option_map]. f_equal.
    rewrite (apply_credit_as_effect _ _ Hm). reflexivity.
  - destruct (rows c !! k) as [b|]; [|reflexivity].
    cbn [fmap option_fmap option_map]. f_equal.
    apply (apply_credit_as_effect _ _ Hm).
Qed.

Lemma tap_effect_frame (s : store) (v now k : Z) (b : account) :
  v ≠ k →
  tap_effect s v now k b = set_balance (token_balance (tap_effect s v now k b)) b.
Proof.
  intros Hne. unfold tap_effect. destruct (tapper s v now); [|destruct b; reflexivity].
  rewrite decide_False by exact Hne. reflexivity.
Qed.

Lemma handle_tap_int4 (v now : Z) (c : conn) :
  int4_ok (rows c) → int4_ok (rows (snd (handle_tap v now c))).
Proof.
  intros Hint k b'. rewrite (rows_tap_effect _ _ _ _ Hint).
  destruct (rows c !! k) as [b|] eqn:Hk; [|discriminate].
  intros [= <-]. unfold tap_effect.
  destruct (tapper (rows c) v now); [|exact (Hint k b Hk)].
  cbn [set_balance mining_power]. case_decide; exact (Hint k b Hk).
Qed.

(** A tap of [u] does not change whether a tap of another user [v] is
    allowed, nor the row it is computed from, the balance apart. *)
Lemma tapper_after_other_tap (u v nu nv : Z) (c : conn) :
  u ≠ v → int4_ok (rows c) →
  tapper (rows (snd (handle_tap u nu c))) v nv
    = tap_effect (rows c) u nu v <$> tapper (rows c) v nv.
Proof.
  intros Hne Hint. unfold tapper.
  rewrite (rows_tap_effect _ _ _ _ Hint).
  destruct (rows c !! v) as [av|]; [|reflexivity].
  cbn [fmap option_fmap option_map].
  pose proof (tap_effect_frame (rows c) u nu v av Hne) as Hfr.
  assert (Ht : taps (tap_effect (rows c) u nu v av) = taps av
               ∧ tap_timestamp (tap_effect (rows c) u nu v av)
                 = tap_timestamp av) by (rewrite Hfr; done).
  destruct Ht as [-> ->].
  destruct (eligible (taps av) (tap_timestamp av) nv); reflexivity.
Qed.

Lemma handle_tap_reply (v now : Z) (c : conn) :
  fst (handle_tap v now c) =
    match rows c !! v with
    | Some av => if eligible (taps av) (tap_timestamp av) now
                 then Tapped (new_tokens (mining_power av))
                 else TapRejected DailyLimitReached
    | None => TapRejected NotRegistered
    end.
Proof.
  destruct (rows c !! v) as [av|] eqn:Hv.
  - rewrite (handle_tap_registered _ _ _ _ Hv).
    destruct (eligible (taps av) (tap_timestamp av) now); reflexivity.
  - rewrite (handle_tap_unregistered _ _ _ Hv). reflexivity.
Qed.

Lemma reply_after_other_tap (u v nu nv : Z) (c : conn) :
  u ≠ v → int4_ok (rows c) →
  fst (handle_tap v nv (snd (handle_tap u nu c))) = fst (handle_tap v nv c).
Proof.
  intros Hne Hint. rewrite !handle_tap_reply.
  rewrite (rows_tap_effect _ _ _ _ Hint).
  destruct (rows c !! v) as [av|]; [|reflexivity].
  cbn [fmap option_fmap option_map].
  pose proof (tap_effect_frame (rows c) u nu v av Hne) as Hfr.
  assert (Ht : taps (tap_effect (rows c) u nu v av) = taps av
               ∧ tap_timestamp (tap_effect (rows c) u nu v av)
                 = tap_timestamp av
               ∧ mining_power (tap_effect (rows c) u nu v av)
                 = mining_power av) by (rewrite Hfr; done).
  destruct Ht as (-> & -> & ->). reflexivity.
Qed.

Lemma tap_effects_commute (s s1 s2 : store) (u v nu nv k : Z) (b : account) :
  u ≠ v →
  tapper s1 v nv = tap_effect s u nu v <$> tapper s v nv →
  tapper s2 u nu = tap_effect s v nv u <$> tapper s u nu →
  tap_effect s1 v nv k (tap_effect s u nu k b)
    = tap_effect s2 u nu k (tap_effect s v nv k b).
Proof.
  intros Hne H1 H2. unfold tap_effect. rewrite H1, H2. unfold tap_effect.
  destruct (tapper s u nu) as [au|], (tapper s v nv) as [av|];
    cbn [fmap option_fmap option_map]; try reflexivity.
  rewrite !(decide_False (P := u = v)) by exact Hne.
  rewrite !(decide_False (P := v = u)) by congruence.
  destruct (decide (u = k)) as [Huk|Huk], (decide (v = k)) as [Hvk|Hvk];
    try congruence.
  all: destruct b as [bw bt bm bc br bn bs bj bf bb],
         au as [uw ut um uc ur un us uj uf ub],
         av as [vw vt vm vc vr vn vs vj vf vb];
    unfold credit_to, referrer_of, after_tap, set_tap, set_balance;
    cbn [wallet_address taps mining_power referral_code referred_by
         referral_count tap_timestamp joined_telegram followed_twitter
         token_balance];
    f_equal; lia.
Qed.

(** X15. Taps of two different users commute: handled in either order
    they leave the same table, and each gets the reply it would get on
    the table as it was, also when one of the two is the referrer of the
    other.  Mining powers are taken in the [INTEGER] range of their
    column. *)
Theorem taps_of_different_users_commute (s : store) (u v nu nv : Z) :
  u ≠ v → (∀ k b, s !! k = Some b → int4 (mining_power b)) →
  let uv := handle_tap v nv (snd (handle_tap u nu (connect s))) in
  let vu := handle_tap u nu (snd (handle_tap v nv (connect s))) in
  rows (snd uv) = rows (snd vu) ∧
  fst uv = fst (handle_tap v nv (connect s)) ∧
  fst vu = fst (handle_tap u nu (connect s)).
Proof.
  intros Hne Hint uv vu. subst uv vu.
  assert (Hint0 : int4_ok (rows (connect s))) by exact Hint.
  assert (Hvu : v ≠ u) by congruence.
  split; [|split].
  - apply map_eq. intros k.
    rewrite (rows_tap_effect v nv _ k (handle_tap_int4 u nu _ Hint0)).
    rewrite (rows_tap_effect u nu _ k (handle_tap_int4 v nv _ Hint0)).
    rewrite !(rows_tap_effect _ _ _ k Hint0).
    destruct (rows (connect s) !! k) as [b|]; [|reflexivity].
    cbn [fmap option_fmap option_map]. f_equal.
    apply tap_effects_commute; [exact Hne| |].
    + apply tapper_after_other_tap; assumption.
    + apply tapper_after_other_tap; assumption.
  - apply reply_after_other_tap; assumption.
  - apply reply_after_other_tap; assumption.
Qed.

Lemma taps_of_different_users_commute_witness :
  let c := connect Sample.table in
  let uv := handle_tap 1 2500 (snd (handle_tap 2 2000 c)) in
  let vu := handle_tap 2 2000 (snd (handle_tap 1 2500 c)) in
  2 ≠ 1 ∧
  (∀ k b, Sample.table !! k = Some b → int4 (mining_power b)) ∧
  rows (snd uv) = rows (snd vu) ∧
  fst uv = fst (handle_tap 1 2500 c) ∧
  fst vu = fst (handle_tap 2 2000 c).
Proof.
  cbv zeta.
  assert (Hne : (2 : Z) ≠ 1) by lia.
  assert (Hint : ∀ k b, Sample.table !! k = Some b → int4 (mining_power b)).
  { intros k b. unfold Sample.table.
    rewrite !lookup_insert. repeat case_decide; try discriminate.
    all: intros [= <-]; unfold int4; cbn; lia. }
  split; [exact Hne|]. split; [exact Hint|].
  apply (taps_of_different_users_commute Sample.table 2 1 2000 2500 Hne Hint).
Defined.

(** * The start menu *)

Lemma re_match_head (a : Ascii.ascii) (p data : string) :
  re_match (String a p) data = true → ∃ rest, data = String a rest.
Proof.
  unfold re_match. destruct data as [|b rest]; cbn [String.prefix]; [discriminate|].
  destruct (Ascii.ascii_dec a b) as [->|]; [eauto|discriminate].
Qed.

(** X16. No callback data is matched by the patterns of two of the
    handlers registered in [main] (lines 192-195): the order of the four
    [add_handler] calls does not decide which handler runs. *)
Theorem callback_patterns_are_exclusive (data : string) (i j : nat)
    (p q : string) (h k : callback_handler) :
  callback_handlers !! i = Some (p, h) →
  callback_handlers !! j = Some (q, k) →
  re_match p data = true → re_match q data = true →
  i = j.
Proof.
  intros Hi Hj Hp Hq. unfold callback_handlers in *.
  destruct i as [|[|[|[|i]]]]; try discriminate Hi;
    destruct j as [|[|[|[|j]]]]; try discriminate Hj;
    try reflexivity.
  all: injection Hi as <- <-; injection Hj as <- <-.
  all: apply re_match_head in Hp as (r1 & ->);
       apply re_match_head in Hq as (r2 & Heq); discriminate Heq.
Qed.

Lemma callback_patterns_are_exclusive_witness :
  callback_handlers !! 2%nat = Some ("tap", H_handle_tap) ∧
  re_match "tap" "tapestry" = true ∧
  (2 = 2)%nat.
Proof.
  split; [reflexivity|]. split; [reflexivity|].
  apply (callback_patterns_are_exclusive "tapestry" 2 2 "tap" "tap"
           H_handle_tap H_handle_tap); reflexivity.
Defined.

(** X17. The menu sent by [start] (lines 69-83) has six buttons with
    callback data; [main] registers a handler for four of them.  A press
    on "Tap", "Skip Wallet Connection", "Connect Wallet" or "View
    Dashboard" reaches [handle_tap], [skip], [connect] or
    [view_dashboard]; the data of "Check Balance" and "Invite Friends"
    match no registered pattern, and these are the only such buttons. *)
Theorem start_menu_routing :
  menu_callbacks = ["tap"; "skip"; "connect"; "balance"; "invite"; "dashboard"] ∧
  route_callback <$> menu_callbacks
    = [Some H_handle_tap; Some H_skip; Some H_connect; None; None;
       Some H_view_dashboard] ∧
  ∀ d, d ∈ menu_callbacks →
       (route_callback d = None ↔ d = "balance" ∨ d = "invite").
Proof.
  split; [reflexivity|]. split; [reflexivity|].
  intros d Hd. change menu_callbacks
    with ["tap"; "skip"; "connect"; "balance"; "invite"; "dashboard"] in Hd.
  repeat (apply elem_of_cons in Hd as [->|Hd]);
    [..|apply elem_of_nil in Hd; contradiction].
  all: split; [intros H; try discriminate H; auto|intros [H|H]; try discriminate H; reflexivity].
Qed.

(** * Trying again while at the cap *)

(** X18. Trying again while at the cap neither pays nor delays the next
    window.  For a user at the cap, any number of tap requests within the
    24 hours after the last successful tap are all rejected and leave the
    connection as it was, so that a request made later than 24 hours
    after that tap succeeds and sets the counter to 1. *)
Theorem rejected_taps_do_not_delay (c : conn) (uid now : Z) (a : account)
    (times : list Z) :
  rows c !! uid = Some a → MAX_TAPS_PER_DAY ≤ taps a →
  (∀ t, t ∈ times → t - tap_timestamp a ≤ ONE_DAY) →
  now - tap_timestamp a > ONE_DAY →
  tap_sequence uid times c
    = (replicate (length times) (TapRejected DailyLimitReached), c) ∧
  is_tapped (fst (handle_tap uid now (snd (tap_sequence uid times c)))) ∧
  taps <$> (rows (snd (handle_tap uid now (snd (tap_sequence uid times c))))
              !! uid) = Some 1.
Proof.
  intros Ha Hcap Htimes Hnow.
  assert (Hseq : tap_sequence uid times c
                 = (replicate (length times) (TapRejected DailyLimitReached), c)).
  { induction times as [|t times IH]; [reflexivity|].
    cbn [tap_sequence length replicate].
    assert (Hrej : handle_tap uid t c = (TapRejected DailyLimitReached, c)).
    { rewrite (handle_tap_registered _ _ _ _ Ha).
      assert (E : eligible (taps a) (tap_timestamp a) t = false).
      { unfold eligible. apply orb_false_iff. split.
        - apply Z.ltb_ge. exact Hcap.
        - apply Z.ltb_ge. apply Htimes. left. }
      rewrite E. reflexivity. }
    rewrite Hrej, IH; [reflexivity|].
    intros t' Hin. apply Htimes. right. exact Hin. }
  rewrite Hseq. cbn [snd]. split; [reflexivity|].
  assert (Hok : tap_allowed a now) by (right; exact Hnow).
  split.
  - apply (tapped_iff_allowed c uid now a Ha). exact Hok.
  - rewrite (allowed_tap_counter _ _ _ _ Ha Hok).
    assert (E : (taps a <? MAX_TAPS_PER_DAY) = false) by (apply Z.ltb_ge; exact Hcap).
    rewrite E. reflexivity.
Qed.

Lemma rejected_taps_do_not_delay_witness :
  let c := connect Sample.table in
  let times := [100; 200; ONE_DAY] in
  let now := ONE_DAY + 1 in
  rows c !! 3 = Some Sample.capped ∧
  MAX_TAPS_PER_DAY ≤ taps Sample.capped ∧
  (∀ t, t ∈ times → t - tap_timestamp Sample.capped ≤ ONE_DAY) ∧
  now - tap_timestamp Sample.capped > ONE_DAY ∧
  tap_sequence 3 times c
    = (replicate (length times) (TapRejected DailyLimitReached), c) ∧
  is_tapped (fst (handle_tap 3 now (snd (tap_sequence 3 times c)))) ∧
  taps <$> (rows (snd (handle_tap 3 now (snd (tap_sequence 3 times c))))
              !! 3) = Some 1.
Proof.
  cbv zeta.
  assert (H2 : MAX_TAPS_PER_DAY ≤ taps Sample.capped).
  { unfold MAX_TAPS_PER_DAY. cbn. lia. }
  assert (H3 : ∀ t, t ∈ [100; 200; ONE_DAY] →
                    t - tap_timestamp Sample.capped ≤ ONE_DAY).
  { intros t Hin. unfold ONE_DAY in *. cbn [Sample.capped tap_timestamp].
    repeat (apply elem_of_cons in Hin as [->|Hin]; [lia|]).
    apply elem_of_nil in Hin. destruct Hin. }
  assert (H4 : ONE_DAY + 1 - tap_timestamp Sample.capped > ONE_DAY).
  { unfold ONE_DAY. cbn. lia. }
  split; [reflexivity|]. split; [exact H2|]. split; [exact H3|].
  split; [exact H4|].
  apply (rejected_taps_do_not_delay (connect Sample.table) 3 (ONE_DAY + 1)
           Sample.capped [100; 200; ONE_DAY] eq_refl H2 H3 H4).
Defined.
